(** * ClientServer-Project: the BWT server and its client

    A shallow embedding of [ServerLauraRuffoni.py] and of [ClientEND.py]: the
    validator, the two transforms, the batch parser, the response assembler
    and the framing of the server; the request, the receiving side and the
    three printers of the client.  Sockets, processes, files and the command
    line are outside the model: a stream is the list of the chunks [recv]
    returns, and a printer's result is what it writes and prints.

    Modelling conventions.
    - A Python [str] is a [list ascii]: a sequence of code points below 256;
      a [bytes] buffer is a [list ascii] as well, a sequence of bytes.  The
      two are told apart by [Py.encode] and [Py.decode], the UTF-8 coding of
      these code points: one byte below 128, two bytes from 128 on.  Text
      with a code point from 256 on is outside the model.
    - [Py.upper] is [str.upper] on ASCII characters.  On the other code
      points it is used only under the membership test of [validate_input],
      where it gives the answer of [str.upper].
    - A numpy object array is a [list] of strings; [np.sort] on it orders the
      strings with Python's [<], the lexicographic order on code points.
    - A Python exception is a constructor of [outcome]; the unbounded
      [while] loops take an explicit amount of fuel. *)

From Stdlib Require Import Ascii String.
From stdpp Require Import base decidable list sorting strings pretty.

Local Open Scope char_scope.
Local Open Scope list_scope.

Abbreviation str := (list ascii).

(** String literals of the source, as lists of characters. *)
Definition s_ (x : string) : str := list_ascii_of_string x.

(** ** Results of fallible code *)

Inductive outcome (A : Type) : Type :=
| Returns (a : A)
| IndexError
| OutOfFuel.
Arguments Returns {A} a.
Arguments IndexError {A}.
Arguments OutOfFuel {A}.

#[global] Instance outcome_ret : MRet outcome := fun A a => Returns a.

#[global] Instance outcome_bind : MBind outcome := fun A B k m =>
  match m with
  | Returns a => k a
  | IndexError => IndexError
  | OutOfFuel => OutOfFuel
  end.

(** ** Python string primitives *)

Module Py.

(** Code point of a character, the key of every comparison. *)
Definition ord (c : ascii) : nat := nat_of_ascii c.

(** [s < t] and [s <= t] on strings: lexicographic on code points, a proper
    prefix being smaller. *)
Fixpoint leb (s t : str) : bool :=
  match s, t with
  | [], _ => true
  | _ :: _, [] => false
  | a :: s', b :: t' =>
      if Nat.ltb (ord a) (ord b) then true
      else if Nat.eqb (ord a) (ord b) then leb s' t'
      else false
  end.

Definition le (s t : str) : Prop := leb s t = true.
Definition lt (s t : str) : Prop := le s t /\ s <> t.

#[global] Instance le_dec (s t : str) : Decision (le s t).
Proof. unfold le. apply _. Defined.

(** [s.startswith(p)] *)
Fixpoint startswith (p s : str) : bool :=
  match p, s with
  | [], _ => true
  | _ :: _, [] => false
  | a :: p', b :: s' => Ascii.eqb a b && startswith p' s'
  end.

(** [old in s] for a non-empty [old] *)
Fixpoint contains (old s : str) : bool :=
  startswith old s ||
  match s with
  | [] => false
  | _ :: s' => contains old s'
  end.

(** [s.replace(old, new)] for a non-empty [old]: occurrences are found from
    left to right and do not overlap.  [skip] counts the characters of an
    occurrence that are still to be dropped. *)
Fixpoint replace_from (old new : str) (skip : nat) (s : str) : str :=
  match s with
  | [] => []
  | c :: s' =>
      match skip with
      | S k => replace_from old new k s'
      | 0 =>
          if startswith old s
          then new ++ replace_from old new (length old - 1) s'
          else c :: replace_from old new 0 s'
      end
  end.

Definition replace (old new s : str) : str := replace_from old new 0 s.

(** [c.upper()] on one ASCII character: the letters [a] to [z] move to [A]
    to [Z], the other ASCII characters stay.  From 128 on [str.upper] does
    more (181 and 255 leave the 8-bit range, 223 becomes the two letters
    [SS], 224 to 254 but 247 move down by 32) and this function leaves the
    character in place: there it is not [str.upper], but
    [c.upper() in validDNA] is false in the source and
    [in_validDNA (upper c)] is false here, which is all [validate_input]
    asks of it. *)
Definition upper (c : ascii) : ascii :=
  if Nat.leb 97 (ord c) && Nat.leb (ord c) 122 then ascii_of_nat (ord c - 32) else c.

(** [s.split("\n")]: the current field is accumulated in [cur]. *)
Fixpoint split_from (sep : ascii) (cur s : str) : list str :=
  match s with
  | [] => [cur]
  | c :: s' =>
      if Ascii.eqb c sep then cur :: split_from sep [] s'
      else split_from sep (cur ++ [c]) s'
  end.

Definition split (sep : ascii) (s : str) : list str := split_from sep [] s.

(** [s.lstrip(c)], [s.rstrip(c)] and [s.strip(c)] for a one-character set *)
Fixpoint lstrip (c : ascii) (s : str) : str :=
  match s with
  | [] => []
  | a :: s' => if Ascii.eqb a c then lstrip c s' else s
  end.

Definition rstrip (c : ascii) (s : str) : str := rev (lstrip c (rev s)).
Definition strip (c : ascii) (s : str) : str := rstrip c (lstrip c s).

(** [sep.join(l)] *)
Fixpoint join (sep : str) (l : list str) : str :=
  match l with
  | [] => []
  | [x] => x
  | x :: l' => x ++ sep ++ join sep l'
  end.

(** [s.split(sep, maxsplit)] for a one-character [sep] *)
Fixpoint split_max_from (sep : ascii) (maxsplit : nat) (cur s : str) : list str :=
  match s with
  | [] => [cur]
  | c :: s' =>
      match maxsplit with
      | 0 => [cur ++ s]
      | S m =>
          if Ascii.eqb c sep then cur :: split_max_from sep m [] s'
          else split_max_from sep maxsplit (cur ++ [c]) s'
      end
  end.

Definition split_max (sep : ascii) (maxsplit : nat) (s : str) : list str :=
  split_max_from sep maxsplit [] s.

(** [s.split(sep)] for a non-empty string [sep]: the occurrences are found
    from left to right and do not overlap; [skip] counts the characters of an
    occurrence that are still to be dropped. *)
Fixpoint split_str_from (sep : str) (skip : nat) (cur s : str) : list str :=
  match s with
  | [] => [cur]
  | c :: s' =>
      match skip with
      | S k => split_str_from sep k cur s'
      | 0 =>
          if startswith sep s
          then cur :: split_str_from sep (length sep - 1) [] s'
          else split_str_from sep 0 (cur ++ [c]) s'
      end
  end.

Definition split_str (sep s : str) : list str := split_str_from sep 0 [] s.

(** [str(n)] for an integer [n] *)
Definition str_of_int (n : Z) : str := list_ascii_of_string (pretty n).

(** [s.count(c)] for a character [c] *)
Definition count (c : ascii) (s : str) : nat :=
  length (filter (fun a => a = c) s).

(** The slices [s[-1:]] and [s[:len(s)-1]]; on a non-empty string [s[-1:]]
    is the one-character string [s[-1]]. *)
Definition last1 (s : str) : str := drop (length s - 1) s.
Definition init (s : str) : str := take (length s - 1) s.

(** [s.encode()]: UTF-8.  A code point below 128 is one byte, a code point
    from 128 to 255 is the two bytes [192 + c / 64] and [128 + c mod 64]. *)
Definition encode_char (c : ascii) : str :=
  if Nat.ltb (ord c) 128 then [c]
  else [ascii_of_nat (192 + ord c / 64); ascii_of_nat (128 + ord c mod 64)].

Definition encode (s : str) : str := concat (map encode_char s).

(** [b.decode()]: UTF-8, strict.  [Some] text when the buffer is made of
    bytes below 128 and of two-byte sequences for the code points 128 to 255
    (a first byte 194 or 195, then a byte from 128 to 191).  [None] on every
    other buffer: there the source raises UnicodeDecodeError, or the text
    holds a code point from 256 on and is outside the model. *)
Fixpoint decode (b : str) : option str :=
  match b with
  | [] => Some []
  | x :: rest =>
      if Nat.ltb (ord x) 128 then cons x <$> decode rest
      else if Nat.eqb (ord x) 194 || Nat.eqb (ord x) 195 then
        match rest with
        | y :: rest' =>
            if Nat.leb 128 (ord y) && Nat.leb (ord y) 191
            then cons (ascii_of_nat ((ord x - 192) * 64 + (ord y - 128)))
                   <$> decode rest'
            else None
        | [] => None
        end
      else None
  end.

End Py.

(** [np.sort] of an object array of strings *)
Definition np_sort (a : list str) : list str := merge_sort Py.le a.

(** ** ServerLauraRuffoni.py *)

Definition validDNA : list ascii :=
  ["A"; "C"; "G"; "T"; "R"; "Y"; "S"; "W"; "K"; "M"; "B"; "D"; "H"; "V"; "N"; "-"].

Definition in_validDNA (c : ascii) : bool := existsb (Ascii.eqb c) validDNA.

(** [validate_input]: the [try]/[raise Errore]/[except Errore] of the source
    is a plain conditional. *)
Definition validate_input (seq : str) : bool :=
  let seq := Py.replace ["$"] [] seq in
  if Nat.eqb (length seq) 0 || negb (forallb (fun nucl => in_validDNA (Py.upper nucl)) seq)
  then false
  else true.

(** One pass of the first loop of [DNAtoBWT]: move the last character to the
    front. *)
Definition rotate1 (word : str) : str := Py.last1 word ++ Py.init word.

(** The first loop of [DNAtoBWT], [k] iterations from [word]: the entries
    written to [arr_perm], in order. *)
Fixpoint rotations (k : nat) (word : str) : list str :=
  match k with
  | 0 => []
  | S k' => let word := rotate1 word in word :: rotations k' word
  end.

Definition DNAtoBWT (word : str) : str :=
  let arr_perm := rotations (length word) word in
  let arr_perm := np_sort arr_perm in
  let last := map Py.last1 arr_perm in
  Py.join [] last.

(** The [while] loop of [BWTtoDNA]; the result carries the number of
    iterations performed. *)
Fixpoint BWTtoDNA_loop (fuel : nat) (word sort_word : list str)
  : outcome (nat * list str) :=
  match sort_word with
  | [] => IndexError
  | row0 :: _ =>
      if Nat.ltb (length row0) (length sort_word) then
        match fuel with
        | 0 => OutOfFuel
        | S fuel' =>
            let sort_word := zip_with app word sort_word in
            let sort_word := np_sort sort_word in
            '(k, rows) ← BWTtoDNA_loop fuel' word sort_word;
            Returns (S k, rows)
        end
      else Returns (0, sort_word)
  end.

(** [perm[-1] == "$"]; the rows met by the selection are never empty. *)
Definition ends_with_dollar (perm : str) : bool :=
  match last perm with
  | Some c => Ascii.eqb c "$"
  | None => false
  end.

Definition BWTtoDNA_fuel (fuel : nat) (word : str) : outcome str :=
  let word := map (fun c => [c]) word in
  let sort_word := np_sort word in
  '(_, sort_word) ← BWTtoDNA_loop fuel word sort_word;
  match filter (fun perm => ends_with_dollar perm = true) sort_word with
  | res :: _ => Returns res
  | [] => IndexError
  end.

(** The loop runs at most [len(word) - 1] times, so [len(word)] units of fuel
    are enough (see [BWTtoDNA_fuel_enough]). *)
Definition BWTtoDNA (word : str) : outcome str :=
  BWTtoDNA_fuel (length word) word.

(** The value returned by [checkAndTranslate]: [False], or the pair
    [(error_headers, out)]. *)
Inductive parse_result : Type :=
| Rejected
| Accepted (error_headers out : list str).

(** The local variables of the parsing loop of [checkAndTranslate]. *)
Record scan : Type := Scan {
  elem : str;
  header : str;
  error_headers : list str;
  out : list str
}.

Definition is_header (line : str) : bool :=
  Py.startswith [">"] line || Py.startswith ["<"] line.

(** The [if]/[elif]/[elif] chain run when a header line is met at index [i]. *)
Definition close_record (i : nat) (st : scan) : outcome scan :=
  if negb (validate_input (elem st)) && Nat.ltb 0 i then
    mret (Scan (elem st) (header st) (error_headers st ++ [header st]) (out st))
  else if Py.startswith [">"] (header st) then
    let out1 := out st ++ [s_ "< " ++ drop 1 (header st)] in
    mret (Scan (elem st) (header st) (error_headers st)
               (out1 ++ [DNAtoBWT (elem st ++ ["$"])]))
  else if Py.startswith ["<"] (header st) then
    let out1 := out st ++ [s_ "> " ++ drop 1 (header st)] in
    res ← BWTtoDNA (elem st);
    mret (Scan (elem st) (header st) (error_headers st) (out1 ++ [res]))
  else mret st.

(** The body of the [for] loop at index [i]. *)
Definition scan_line (i : nat) (line : str) (st : scan) : outcome scan :=
  if is_header line then
    st ← close_record i st;
    mret (Scan [] line (error_headers st) (out st))
  else
    mret (Scan (elem st ++ Py.strip "010" line) (header st)
               (error_headers st) (out st)).

(** The [for] loop over [lines[i:]]. *)
Fixpoint scan_lines (i : nat) (lines : list str) (st : scan) : outcome scan :=
  match lines with
  | [] => mret st
  | line :: rest => st ← scan_line i line st; scan_lines (S i) rest st
  end.

(** [[line for line in msg.split("\n") if line != ""]] *)
Definition nonempty_lines (msg : str) : list str :=
  filter (fun line => line <> []) (Py.split "010" msg).

Definition checkAndTranslate (msg : str) : outcome parse_result :=
  let lines := nonempty_lines msg in
  let lines := lines ++ [["<"]] in
  if Nat.ltb (length lines) 3 || negb (is_header (default [] (head lines)))
  then mret Rejected
  else
    st ← scan_lines 0 lines (Scan [] (s_ "%%%") [] []);
    mret (Accepted (error_headers st) (out st)).

Definition output_manager (error_headers out : list str) : str :=
  let final := [] in
  let final :=
    if Nat.ltb 0 (length error_headers)
    then final ++ (s_ "%%%" ++ Py.join (s_ "%%%") error_headers ++ ["010"])
    else final in
  final ++ Py.join ["010"] out.

(** The termination sequence [b"/0"] of both sides. *)
Definition end_ : str := s_ "/0".

(** The receive loop of [handle_client] and of [client_connect]: [chunks] are
    the successive results of [recv(1024)].  [None] when the chunks run out
    before the termination sequence was seen: the loop has not left. *)
Fixpoint recv_loop (chunks : list str) (msg : str) : option str :=
  match chunks with
  | [] => None
  | chunk :: chunks' =>
      let msg := msg ++ chunk in
      if Py.contains end_ msg then Some msg else recv_loop chunks' msg
  end.

(** What [msg.decode()] gives on the accumulated buffer: the text, or no
    text of the model ([Py.decode] is [None]: UnicodeDecodeError is raised
    and the call ends there, or the text is outside the model). *)
Inductive decoded (A : Type) : Type :=
| Text (a : A)
| Undecoded.
Arguments Text {A} a.
Arguments Undecoded {A}.

(** [text.replace(end.decode(), "")] on the decoded text; [end.decode()] is
    the text [/0]. *)
Definition remove_end (text : str) : str := Py.replace end_ [] text.

(** [msg.decode().replace(end.decode(), "")] after the receive loop. *)
Definition recv_message (chunks : list str) : option (decoded str) :=
  msg ← recv_loop chunks [];
  Some (match Py.decode msg with
        | Some text => Text (remove_end text)
        | None => Undecoded
        end).

Definition input_error : str :=
  s_ "Input Error: either empty file or no header in first line".

(** What [handle_client] computes from the received text: the bytes handed to
    [sendall], [output.encode() + b"/0"]. *)
Definition handle_message (msg : str) : outcome str :=
  result ← checkAndTranslate msg;
  let output :=
    match result with
    | Accepted error_headers out => output_manager error_headers out
    | Rejected => input_error
    end in
  mret (Py.encode output ++ end_).

(** [handle_client] from the receive loop to [sendall]: nothing is sent
    while the loop has not left, nor when the buffer is not decoded. *)
Definition handle_client (chunks : list str) : option (decoded (outcome str)) :=
  msg ← recv_message chunks;
  Some (match msg with
        | Text msg => Text (handle_message msg)
        | Undecoded => Undecoded
        end).

(** ** ClientEND.py: the text [client_connect] hands to the [verbose]
    printers. *)
Definition client_connect_recv (chunks : list str) : option (decoded str) :=
  recv_message chunks.

(** ** ClientEND.py *)

(** The bytes [client_connect] hands to [sendall]:
    [content.encode() + b"/0"]. *)
Definition client_request (content : str) : str := Py.encode content ++ end_.

(** How a printer ends. *)
Inductive ending : Type :=
| Normal
| RaisedIndexError.

(** What a printer leaves behind: the content of [outfile] when it was opened
    for writing ([None]: not opened), the text handed to [print] ([None]:
    nothing printed), and how the call ended. *)
Record effects : Type := Effects {
  written : option str;
  printed : option str;
  ended : ending
}.

(** [msg.count("<") + msg.count(">")] *)
Definition count_markers (msg : str) : Z :=
  Z.of_nat (Py.count "<" msg) + Z.of_nat (Py.count ">" msg).

(** [[line for line in msg[0].split("%%%") if line != ""]] *)
Definition error_headers_of (block : str) : list str :=
  filter (fun line => line <> []) (Py.split_str (s_ "%%%") block).

Definition verbose0 (msg outfile : str) : effects :=
  if Py.startswith (s_ "%%%") msg then
    let msg := Py.split_max "010" 1 msg in
    match msg !! 1 with
    | Some success => Effects (Some success) None Normal
    | None => Effects (Some []) None RaisedIndexError
    end
  else if Py.startswith [">"] msg || Py.startswith ["<"] msg then
    Effects (Some msg) None Normal
  else Effects None (Some msg) Normal.

Definition verbose1 (msg outfile : str) : effects :=
  if Py.startswith (s_ "%%%") msg then
    let c := count_markers msg in
    let msg := Py.split_max "010" 1 msg in
    match msg !! 1 with
    | None => Effects (Some []) None RaisedIndexError
    | Some success =>
        let errorHeaders := error_headers_of (default [] (msg !! 0)) in
        let text_output :=
          outfile ++ s_ " created with "
          ++ Py.str_of_int (c - Z.of_nat (length errorHeaders))
          ++ s_ " out of " ++ Py.str_of_int c ++ s_ " total inputs." in
        Effects (Some success) (Some text_output) Normal
    end
  else if Py.startswith [">"] msg || Py.startswith ["<"] msg then
    let c := count_markers msg in
    Effects (Some msg)
      (Some (outfile ++ s_ " correctly created with a total of "
             ++ Py.str_of_int c ++ s_ " transformation."))
      Normal
  else Effects None (Some msg) Normal.

Definition verbose2 (msg outfile : str) : effects :=
  if Py.startswith (s_ "%%%") msg then
    let c := count_markers msg in
    let msg := Py.split_max "010" 1 msg in
    match msg !! 1 with
    | None => Effects (Some []) None RaisedIndexError
    | Some success =>
        let errorHeaders := error_headers_of (default [] (msg !! 0)) in
        let text_output :=
          outfile ++ s_ " created with "
          ++ Py.str_of_int (c - Z.of_nat (length errorHeaders))
          ++ s_ " out of " ++ Py.str_of_int c ++ s_ " total inputs." ++ ["010"]
          ++ s_ "Skipped " ++ Py.str_of_int (Z.of_nat (length errorHeaders))
          ++ s_ " inputs:" ++ ["010"] in
        if Nat.ltb 1 (length errorHeaders) then
          Effects (Some success)
            (Some (text_output ++ Py.join ["010"] errorHeaders)) Normal
        else
          match errorHeaders !! 0 with
          | Some h => Effects (Some success) (Some (text_output ++ h)) Normal
          | None => Effects (Some success) None RaisedIndexError
          end
    end
  else if Py.startswith [">"] msg || Py.startswith ["<"] msg then
    let c := count_markers msg in
    Effects (Some msg)
      (Some (outfile ++ s_ " correctly created with a total of "
             ++ Py.str_of_int c ++ s_ " transformation."))
      Normal
  else Effects None (Some msg) Normal.

(** The end of [client_connect]: the text received goes to the printer of the
    verbosity level; no printer is called for another level. *)
Definition client_connect_show (verbosity : Z) (msg outfile : str) : effects :=
  if decide (verbosity = 0%Z) then verbose0 msg outfile
  else if decide (verbosity = 1%Z) then verbose1 msg outfile
  else if decide (verbosity = 2%Z) then verbose2 msg outfile
  else Effects None None Normal.

(** [client_connect] from the receive loop on: no printer is reached while
    the loop has not left, nor when the buffer is not decoded. *)
Definition client_connect (chunks : list str) (verbosity : Z) (outfile : str)
  : option (decoded effects) :=
  msg ← client_connect_recv chunks;
  Some (match msg with
        | Text msg => Text (client_connect_show verbosity msg outfile)
        | Undecoded => Undecoded
        end).

(** The number of [<] and [>] in a text, and in the lines of a list. *)
Definition markers (s : str) : nat := Py.count "<" s + Py.count ">" s.

Definition markers_in (l : list str) : nat := sum_list (map markers l).

(** A header whose label holds none of [<], [>] and [%]. *)
Definition plain_label (h : str) : Prop :=
  Forall (fun c => c <> "<" /\ c <> ">" /\ c <> "%") (drop 1 h).

(** ** Records, rotations and the other notions of the statements *)

(** The records of a batch: every header line with the concatenation of the
    lines up to the next header.  The first component collects the lines that
    precede the first header. *)
Fixpoint records (lines : list str) : str * list (str * str) :=
  match lines with
  | [] => ([], [])
  | line :: rest =>
      let '(body, rs) := records rest in
      if is_header line then ([], (line, body) :: rs) else (line ++ body, rs)
  end.

Definition batch (msg : str) : list (str * str) :=
  (records (nonempty_lines msg)).2.

Definition valid_record (r : str * str) : bool := validate_input r.2.
Definition invalid_record (r : str * str) : bool := negb (validate_input r.2).

(** What closing one record adds to [error_headers] and to [out]. *)
Definition record_result (h body : str) : outcome (list str * list str) :=
  if negb (validate_input body) then mret ([h], [])
  else if Py.startswith [">"] h then
    mret ([], [s_ "< " ++ drop 1 h; DNAtoBWT (body ++ ["$"])])
  else if Py.startswith ["<"] h then
    res ← BWTtoDNA body; mret ([], [s_ "> " ++ drop 1 h; res])
  else mret ([], []).

Fixpoint batch_result (rs : list (str * str)) : outcome (list str * list str) :=
  match rs with
  | [] => mret ([], [])
  | r :: rs' =>
      '(e, o) ← record_result r.1 r.2;
      '(e', o') ← batch_result rs';
      mret (e ++ e', o ++ o')
  end.

(** A record on which [BWTtoDNA] is called without a [$] to find. *)
Definition lacks_dollar (r : str * str) : Prop :=
  validate_input r.2 = true /\ Py.startswith ["<"] r.1 = true /\ "$" ∉ r.2.

(** The guard of [checkAndTranslate], read on the lines of the message. *)
Definition rejects (msg : str) : bool :=
  Nat.ltb (length (nonempty_lines msg)) 2
  || negb (is_header (default [] (head (nonempty_lines msg)))).

(** The marker of the output header for an input marker. *)
Definition flip_marker (m : ascii) : ascii :=
  if Ascii.eqb m ">" then "<" else ">".

(** An input record and an output record: the marker is flipped and the
    label kept. *)
Definition flipped (r t : str * str) : Prop :=
  exists m m' label,
    r.1 = m :: label /\ t.1 = m' :: " " :: label
    /\ (m = ">" \/ m = "<")
    /\ (m' = "<" <-> m = ">") /\ (m' = ">" <-> m = "<").

(** The transformed records serialised in [out]: header line, body line. *)
Fixpoint transformed (out : list str) : list (str * str) :=
  match out with
  | h :: body :: rest => (h, body) :: transformed rest
  | _ => []
  end.

(** The number of header lines of a message. *)
Definition header_count (msg : str) : nat :=
  length (filter (fun line => is_header line = true) (nonempty_lines msg)).

(** One iteration of the loop of [BWTtoDNA]: prepend and sort again. *)
Definition loop_body (word sort_word : list str) : list str :=
  np_sort (zip_with app word sort_word).

Definition rows_of_length (j : nat) (rows : list str) : Prop :=
  Forall (fun r => length r = j) rows.

(** The sorted rotation matrix of [DNAtoBWT]. *)
Definition matrix (word : str) : list str :=
  np_sort (rotations (length word) word).

(** Rotation [i] of the specification: the last character moved to the front,
    [i] times; and the [n] rotations of a word of length [n]. *)
Definition rotation (i : nat) (word : str) : str := Nat.iter i rotate1 word.

Definition spec_rotations (word : str) : list str :=
  map (fun i => rotation (S i) word) (seq 0 (length word)).

(** Position of the first [c] in [s]; [len(s)] when there is none. *)
Fixpoint first_pos (c : ascii) (s : str) : nat :=
  match s with
  | [] => 0
  | a :: s' => if decide (a = c) then 0 else S (first_pos c s')
  end.

(** Validation as the specification words it: at most one [$] is stripped. *)
Fixpoint strip_one (c : ascii) (s : str) : str :=
  match s with
  | [] => []
  | a :: s' => if Ascii.eqb a c then s' else a :: strip_one c s'
  end.

Definition spec_validate (body : str) : bool :=
  let body := strip_one "$" body in
  negb (Nat.eqb (length body) 0) &&
  forallb (fun c => in_validDNA (Py.upper c)) body.

(** A text without the termination sequence. *)
Definition end_free (p : str) : Prop := Py.contains end_ p = false.

(** A text of ASCII characters: on it [str.upper] is [map Py.upper]. *)
Definition ascii_text (s : str) : Prop := Forall (fun c => (Py.ord c < 128)%nat) s.

(** [s.split("/0")]: the pieces between the occurrences of the termination
    sequence, found from left to right. *)
Definition push (a : ascii) (parts : list str) : list str :=
  match parts with
  | [] => [[a]]
  | p :: ps => (a :: p) :: ps
  end.

Fixpoint split_end (s : str) : list str :=
  match s with
  | [] => [[]]
  | a :: s' =>
      match s' with
      | b :: rest =>
          if Ascii.eqb "/" a && Ascii.eqb "0" b then [] :: split_end rest
          else push a (split_end s')
      | [] => push a (split_end s')
      end
  end.

(** [out] is [buf] with exactly one occurrence of [sep] taken out. *)
Definition strips_one_occurrence (sep buf out : str) : Prop :=
  exists pre post, buf = pre ++ sep ++ post /\ out = pre ++ post.

Example DNAtoBWT_ACGT : DNAtoBWT (s_ "ACGT$") = s_ "T$ACG".
Proof. vm_compute. reflexivity. Qed.

Example BWTtoDNA_TACG : BWTtoDNA (s_ "T$ACG") = Returns (s_ "ACGT$").
Proof. vm_compute. reflexivity. Qed.

Example checkAndTranslate_two :
  checkAndTranslate (s_ ">seq1
ACGT
<seq2
T$ACG
") = Returns (Accepted [] [s_ "< seq1"; s_ "T$ACG"; s_ "> seq2"; s_ "ACGT$"]).
Proof. vm_compute. reflexivity. Qed.

Example handle_message_one_bad :
  handle_message (s_ ">a
AC1
>b
acgt") = Returns (s_ "%%%>a
< b
t$acg/0").
Proof. vm_compute. reflexivity. Qed.

Example BWTtoDNA_no_dollar : BWTtoDNA (s_ "ACGT") = IndexError.
Proof. vm_compute. reflexivity. Qed.

Example recv_message_two :
  recv_message [s_ "a/"; s_ "0b/0"; s_ "zz"] = Some (Text (s_ "ab")).
Proof. vm_compute. reflexivity. Qed.

(** * Properties *)

(** Run the binds of [outcome] whose first computation has returned. *)
Ltac run_bind := cbn [mbind outcome_bind mret outcome_ret].

(** ** The order on strings and [np.sort] *)

Section order.

Lemma ord_inj (a b : ascii) : Py.ord a = Py.ord b -> a = b.
Proof.
  unfold Py.ord. intros E.
  rewrite <- (ascii_nat_embedding a), <- (ascii_nat_embedding b).
  by rewrite E.
Qed.

Lemma leb_cons (a b : ascii) (s t : str) :
  Py.leb (a :: s) (b :: t) = true <->
  Py.ord a < Py.ord b \/ (a = b /\ Py.leb s t = true).
Proof.
  simpl. destruct (Nat.ltb_spec (Py.ord a) (Py.ord b)) as [Hlt|Hge].
  - split; [by left | done].
  - destruct (Nat.eqb_spec (Py.ord a) (Py.ord b)) as [Heq|Hne].
    + apply ord_inj in Heq as ->. split; [by right | intros [?|[_ ?]]; [lia | done]].
    + split; [done | intros [?|[-> _]]; [lia | done]].
Qed.

#[global] Instance le_refl : Reflexive Py.le.
Proof.
  intros s. unfold Py.le. induction s as [|a s IH]; [done|].
  apply leb_cons. by right.
Qed.

#[global] Instance le_trans : Transitive Py.le.
Proof.
  unfold Py.le. intros s. induction s as [|a s IH]; intros t u Hst Htu; [done|].
  destruct t as [|b t]; [done|]. destruct u as [|c u]; [done|].
  apply leb_cons in Hst, Htu. apply leb_cons.
  destruct Hst as [?|[-> ?]], Htu as [?|[-> ?]]; eauto with lia.
Qed.

#[global] Instance le_antisym : AntiSymm (=) Py.le.
Proof.
  unfold Py.le. intros s. induction s as [|a s IH]; intros t Hst Hts.
  - by destruct t.
  - destruct t as [|b t]; [done|].
    apply leb_cons in Hst, Hts.
    destruct Hst as [?|[-> ?]], Hts as [?|[? ?]]; subst; try lia.
    f_equal. by apply IH.
Qed.

#[global] Instance le_total : Total Py.le.
Proof.
  unfold Py.le. intros s. induction s as [|a s IH]; intros t; [by left|].
  destruct t as [|b t]; [by right|].
  rewrite !leb_cons.
  destruct (Nat.lt_trichotomy (Py.ord a) (Py.ord b)) as [?|[E|?]]; auto.
  apply ord_inj in E as ->. destruct (IH t); auto.
Qed.

(** Taking prefixes of the same length is monotone. *)
Lemma le_take (k : nat) (s t : str) : Py.le s t -> Py.le (take k s) (take k t).
Proof.
  unfold Py.le. revert s t. induction k as [|k IH]; intros s t H; [done|].
  destruct s as [|a s]; [done|]. destruct t as [|b t]; [done|].
  simpl take. apply leb_cons in H. apply leb_cons.
  destruct H as [?|[-> ?]]; auto.
Qed.

Lemma np_sort_sorted (a : list str) : Sorted Py.le (np_sort a).
Proof. apply Sorted_merge_sort, _. Qed.

Lemma np_sort_perm (a : list str) : np_sort a ≡ₚ a.
Proof. apply merge_sort_Permutation. Qed.

(** A sorted arrangement of the entries is the one [np.sort] returns,
    whatever the sorting algorithm. *)
Lemma np_sort_unique (a b : list str) :
  Sorted Py.le b -> b ≡ₚ a -> np_sort a = b.
Proof.
  intros Hs Hp. apply (Sorted_unique Py.le); [apply np_sort_sorted | done |].
  by rewrite np_sort_perm.
Qed.

Lemma np_sort_length (a : list str) : length (np_sort a) = length a.
Proof. by rewrite np_sort_perm. Qed.

Lemma sorted_take (k : nat) (a : list str) :
  Sorted Py.le a -> Sorted Py.le (map (take k) a).
Proof. apply (Sorted_fmap _ Py.le Py.le). intros s t. apply le_take. Qed.

End order.

(** ** Rotations *)

Section rotations.

Lemma rotate1_snoc (x : str) (c : ascii) : rotate1 (x ++ [c]) = c :: x.
Proof.
  unfold rotate1, Py.last1, Py.init. rewrite length_app. simpl.
  replace (length x + 1 - 1) with (length x) by lia.
  by rewrite drop_app_length, take_app_length.
Qed.

Lemma rotate1_length (w : str) : length (rotate1 w) = length w.
Proof.
  unfold rotate1, Py.last1, Py.init.
  rewrite length_app, length_drop, length_take. lia.
Qed.

Lemma rotate1_perm (w : str) : rotate1 w ≡ₚ w.
Proof.
  unfold rotate1, Py.last1, Py.init.
  rewrite Permutation_app_comm. by rewrite take_drop.
Qed.

Lemma rotation_succ_r (i : nat) (w : str) :
  rotation (S i) w = rotation i (rotate1 w).
Proof. apply Nat.iter_succ_r. Qed.

Lemma rotation_length (i : nat) (w : str) : length (rotation i w) = length w.
Proof.
  induction i as [|i IH]; [done|]. simpl. by rewrite rotate1_length.
Qed.

Lemma rotation_perm (i : nat) (w : str) : rotation i w ≡ₚ w.
Proof.
  induction i as [|i IH]; [done|]. simpl. by rewrite rotate1_perm.
Qed.

(** Rotating [length b] times brings the suffix [b] to the front. *)
Lemma rotation_app (a b : str) : rotation (length b) (a ++ b) = b ++ a.
Proof.
  revert a. induction b as [|c b IH] using rev_ind; intros a.
  - by rewrite app_nil_r.
  - rewrite length_app. simpl. replace (length b + 1) with (S (length b)) by lia.
    rewrite rotation_succ_r, (assoc_L (++)), rotate1_snoc.
    rewrite app_comm_cons, (IH (c :: a)). by rewrite <- (assoc_L (++)).
Qed.

Lemma rotation_full (w : str) : rotation (length w) w = w.
Proof. rewrite <- (app_nil_l w) at 2. rewrite rotation_app. apply app_nil_r. Qed.

(** The loop of [DNAtoBWT] writes rotation 1, 2, ..., [k]. *)
Lemma rotations_rotation (k : nat) (w : str) :
  rotations k w = map (fun i => rotation (S i) w) (seq 0 k).
Proof.
  revert w. induction k as [|k IH]; intros w; [done|].
  simpl rotations. rewrite IH. simpl seq. rewrite <- seq_shift.
  cbn [map]. rewrite map_map. f_equal. apply map_ext. intros i. by rewrite <- rotation_succ_r.
Qed.

Lemma rotations_spec (w : str) : rotations (length w) w = spec_rotations w.
Proof. apply rotations_rotation. Qed.

Lemma rotations_length (k : nat) (w : str) : length (rotations k w) = k.
Proof. by rewrite rotations_rotation, length_map, length_seq. Qed.

Lemma rotations_rows (k : nat) (w : str) :
  Forall (fun r => length r = length w) (rotations k w).
Proof.
  rewrite rotations_rotation. apply Forall_fmap, Forall_forall.
  intros i _. apply rotation_length.
Qed.

Lemma rotations_snoc (k : nat) (w : str) :
  rotations (S k) w = rotations k w ++ [rotation (S k) w].
Proof.
  rewrite !rotations_rotation, seq_S, map_app. done.
Qed.

Lemma rotations_rotate1 (k : nat) (w : str) :
  map rotate1 (rotations k w) = rotations k (rotate1 w).
Proof.
  rewrite !rotations_rotation, map_map.
  apply map_ext. intros i. by rewrite <- rotation_succ_r.
Qed.

(** The rotation matrix is closed under rotation of its rows. *)
Lemma rotations_closed (w : str) :
  map rotate1 (rotations (length w) w) ≡ₚ rotations (length w) w.
Proof.
  rewrite rotations_rotate1.
  apply (Permutation_cons_inv (a := rotate1 w)).
  change (rotate1 w :: rotations (length w) (rotate1 w))
    with (rotations (S (length w)) w).
  rewrite rotations_snoc, rotation_succ_r.
  assert (rotation (length w) (rotate1 w) = rotate1 w) as ->.
  { rewrite <- (rotate1_length w). apply rotation_full. }
  symmetry. apply Permutation_cons_append.
Qed.

End rotations.

(** ** The loop of [BWTtoDNA] *)

Section inverse_loop.

Lemma zip_with_app_rows (word rows : list str) (i j : nat) :
  rows_of_length i word -> rows_of_length j rows ->
  rows_of_length (i + j) (zip_with app word rows).
Proof.
  intros Hw. revert rows. induction Hw as [|c word Hc Hw IH]; intros rows Hr.
  - constructor.
  - destruct Hr as [|r rows Hr Hrs]; [constructor|].
    simpl. constructor; [rewrite length_app; lia | by apply IH].
Qed.

Lemma loop_body_rows (word rows : list str) (j : nat) :
  rows_of_length 1 word -> rows_of_length j rows ->
  rows_of_length (S j) (loop_body word rows).
Proof.
  intros Hw Hr. unfold loop_body, rows_of_length.
  rewrite np_sort_perm. by apply (zip_with_app_rows word rows 1 j).
Qed.

Lemma loop_body_length (word rows : list str) :
  length word = length rows -> length (loop_body word rows) = length rows.
Proof.
  intros E. unfold loop_body. rewrite np_sort_length, length_zip_with. lia.
Qed.

Lemma iter_loop_body_length (word rows : list str) (d : nat) :
  length word = length rows ->
  length (Nat.iter d (loop_body word) rows) = length rows.
Proof.
  intros E. induction d as [|d IH]; [done|].
  simpl. rewrite loop_body_length; lia.
Qed.

Lemma iter_loop_body_rows (word rows : list str) (j d : nat) :
  rows_of_length 1 word -> rows_of_length j rows ->
  rows_of_length (d + j) (Nat.iter d (loop_body word) rows).
Proof.
  intros Hw Hr. induction d as [|d IH]; [done|].
  simpl. by apply loop_body_rows.
Qed.

(** With [n] rows of length [j <= n] the loop leaves after [n - j]
    iterations, whatever fuel at least that large it was given. *)
Lemma BWTtoDNA_loop_unroll (d : nat) :
  forall (fuel j : nat) (word rows : list str),
    rows_of_length 1 word -> rows_of_length j rows ->
    length word = length rows -> rows <> [] ->
    j + d = length rows -> d <= fuel ->
    BWTtoDNA_loop fuel word rows
    = Returns (d, Nat.iter d (loop_body word) rows).
Proof.
  induction d as [|d IH]; intros fuel j word rows Hw Hr Hlen Hne Hj Hfuel.
  - destruct rows as [|row0 rows']; [done|].
    apply Forall_cons in Hr as Hr0. destruct Hr0 as [Hr0 _].
    destruct fuel; cbn [BWTtoDNA_loop]; rewrite Hr0;
      by destruct (Nat.ltb_spec j (length (row0 :: rows'))); [lia|].
  - destruct rows as [|row0 rows']; [done|].
    apply Forall_cons in Hr as Hr0. destruct Hr0 as [Hr0 _].
    destruct fuel as [|fuel]; [lia|].
    cbn [BWTtoDNA_loop]. rewrite Hr0.
    destruct (Nat.ltb_spec j (length (row0 :: rows'))); [|lia].
    fold (loop_body word (row0 :: rows')).
    assert (length (loop_body word (row0 :: rows')) = length (row0 :: rows'))
      as Hl by by apply loop_body_length.
    rewrite (IH fuel (S j)).
    + by rewrite Nat.iter_succ_r.
    + done.
    + by apply loop_body_rows.
    + lia.
    + intros E. rewrite E in Hl. done.
    + lia.
    + lia.
Qed.

Lemma singletons_rows (word : str) :
  rows_of_length 1 (map (fun c => [c]) word).
Proof. apply Forall_fmap, Forall_forall. done. Qed.

Lemma loop_fuel_enough (fuel : nat) (word : str) :
  word <> [] -> length word - 1 <= fuel ->
  BWTtoDNA_loop fuel (map (fun c => [c]) word) (np_sort (map (fun c => [c]) word))
  = Returns (length word - 1,
             Nat.iter (length word - 1) (loop_body (map (fun c => [c]) word))
               (np_sort (map (fun c => [c]) word))).
Proof.
  intros Hne Hfuel.
  assert (0 < length word) by (destruct word; [done | simpl; lia]).
  apply (BWTtoDNA_loop_unroll _ fuel 1).
  - apply singletons_rows.
  - unfold rows_of_length. rewrite np_sort_perm. apply singletons_rows.
  - by rewrite np_sort_length.
  - intros E. apply (f_equal length) in E.
    rewrite np_sort_length, length_map in E. simpl in E. lia.
  - rewrite np_sort_length, length_map. lia.
  - done.
Qed.

(** More fuel than [len(word) - 1] changes nothing: [BWTtoDNA] is the
    function computed by the source. *)
Lemma BWTtoDNA_fuel_enough (fuel : nat) (word : str) :
  length word - 1 <= fuel -> BWTtoDNA_fuel fuel word = BWTtoDNA word.
Proof.
  intros Hfuel. unfold BWTtoDNA, BWTtoDNA_fuel.
  destruct word as [|c word]; [by destruct fuel|].
  rewrite !loop_fuel_enough; [done | done | simpl; lia | done | done].
Qed.

End inverse_loop.

(** ** The inverse transform rebuilds the sorted rotation matrix *)

Section round_trip.

Lemma join_nil (l : list str) : Py.join [] l = concat l.
Proof.
  induction l as [|x l IH]; [done|].
  destruct l as [|y l]; [simpl; by rewrite app_nil_r|].
  change (Py.join [] (x :: y :: l)) with (x ++ [] ++ Py.join [] (y :: l)).
  by rewrite IH.
Qed.

Lemma matrix_rows (w : str) : rows_of_length (length w) (matrix w).
Proof.
  unfold matrix, rows_of_length. rewrite np_sort_perm. apply rotations_rows.
Qed.

Lemma matrix_length (w : str) : length (matrix w) = length w.
Proof. unfold matrix. by rewrite np_sort_length, rotations_length. Qed.

Lemma matrix_closed (w : str) : map rotate1 (matrix w) ≡ₚ matrix w.
Proof.
  unfold matrix.
  trans (map rotate1 (rotations (length w) w)).
  - apply (fmap_Permutation rotate1), np_sort_perm.
  - rewrite rotations_closed. symmetry. apply np_sort_perm.
Qed.

Lemma last1_length (r : str) : r <> [] -> length (Py.last1 r) = 1.
Proof.
  intros Hr. unfold Py.last1. rewrite length_drop.
  destruct r; [done | simpl; lia].
Qed.

Lemma singletons_concat (l : list str) :
  rows_of_length 1 l -> map (fun c => [c]) (concat l) = l.
Proof.
  induction 1 as [|x l Hx Hl IH]; [done|].
  destruct x as [|c [|? ?]]; try done. simpl. by rewrite IH.
Qed.

Lemma last_column_rows (w : str) :
  rows_of_length 1 (map Py.last1 (matrix w)).
Proof.
  destruct w as [|c w]; [constructor|].
  apply Forall_fmap. eapply Forall_impl; [apply matrix_rows|].
  intros r Hr. simpl in *. apply last1_length. by intros ->.
Qed.

(** The characters of the transform are the last column of the matrix. *)
Lemma DNAtoBWT_last_column (w : str) :
  map (fun c => [c]) (DNAtoBWT w) = map Py.last1 (matrix w).
Proof.
  unfold DNAtoBWT. rewrite join_nil. apply singletons_concat, last_column_rows.
Qed.

Lemma DNAtoBWT_length (w : str) : length (DNAtoBWT w) = length w.
Proof.
  rewrite <- (length_map (fun c => [c])), DNAtoBWT_last_column.
  by rewrite length_map, matrix_length.
Qed.

(** Prepending the last character to a [k]-prefix gives the
    [k+1]-prefix of the rotated row. *)
Lemma prepend_last (k : nat) (r : str) :
  k < length r -> Py.last1 r ++ take k r = take (S k) (rotate1 r).
Proof.
  intros Hk. unfold rotate1.
  assert (length (Py.last1 r) = 1) as Hl.
  { apply last1_length. intros ->. simpl in Hk. lia. }
  rewrite take_app, Hl.
  rewrite (take_ge (Py.last1 r)) by lia. f_equal.
  replace (S k - 1) with k by lia.
  unfold Py.init. rewrite take_take. f_equal. lia.
Qed.

Lemma zip_with_map2 {A B C D} (f : B -> C -> D) (g : A -> B) (h : A -> C) l :
  zip_with f (map g l) (map h l) = map (fun x => f (g x) (h x)) l.
Proof. induction l as [|x l IH]; [done|]. simpl. by rewrite IH. Qed.

Lemma matrix_step (k : nat) (w : str) :
  k < length w ->
  loop_body (map Py.last1 (matrix w)) (map (take k) (matrix w))
  = map (take (S k)) (matrix w).
Proof.
  intros Hk. unfold loop_body. rewrite zip_with_map2.
  apply np_sort_unique.
  - apply sorted_take, np_sort_sorted.
  - rewrite <- (matrix_closed w) at 1. rewrite map_map.
    apply eq_subrelation; [apply _|].
    apply Forall_fmap_ext_1. eapply Forall_impl; [apply matrix_rows|].
    intros r Hr. simpl in *. symmetry. apply prepend_last. lia.
Qed.

Lemma matrix_iter (d k : nat) (w : str) :
  k + d <= length w ->
  Nat.iter d (loop_body (map Py.last1 (matrix w))) (map (take k) (matrix w))
  = map (take (k + d)) (matrix w).
Proof.
  revert k. induction d as [|d IH]; intros k Hk.
  - by rewrite Nat.add_0_r.
  - rewrite Nat.iter_succ_r, matrix_step by lia.
    rewrite IH by lia. do 2 f_equal. lia.
Qed.

Lemma matrix_first_column (w : str) :
  w <> [] -> np_sort (map Py.last1 (matrix w)) = map (take 1) (matrix w).
Proof.
  intros Hw. rewrite <- (matrix_step 0 w).
  - unfold loop_body. rewrite zip_with_map2. f_equal.
    apply map_ext. intros r. by rewrite app_nil_r.
  - destruct w; [done | simpl; lia].
Qed.

Lemma matrix_take_all (w : str) : map (take (length w)) (matrix w) = matrix w.
Proof.
  rewrite <- (map_id (matrix w)) at 2.
  apply Forall_fmap_ext_1. eapply Forall_impl; [apply matrix_rows|].
  intros r Hr. simpl in *. apply take_ge. lia.
Qed.

(** On the transform of a non-empty word the loop of [BWTtoDNA] leaves with
    the sorted rotation matrix of the word. *)
Lemma BWTtoDNA_loop_matrix (w : str) :
  w <> [] ->
  BWTtoDNA_loop (length w) (map (fun c => [c]) (DNAtoBWT w))
    (np_sort (map (fun c => [c]) (DNAtoBWT w)))
  = Returns (length w - 1, matrix w).
Proof.
  intros Hw.
  assert (0 < length w) by (destruct w; [done | simpl; lia]).
  pose proof (loop_fuel_enough (length w) (DNAtoBWT w)) as Hloop.
  rewrite DNAtoBWT_length in Hloop. rewrite Hloop; [|intros E|lia].
  - rewrite DNAtoBWT_last_column, matrix_first_column by done.
    rewrite matrix_iter by lia.
    replace (1 + (length w - 1)) with (length w) by lia.
    by rewrite matrix_take_all.
  - pose proof (DNAtoBWT_length w) as Hl. rewrite E in Hl. simpl in Hl. lia.
Qed.

End round_trip.

(** ** The last column is kept by the loop; the final selection *)

Section selection.

Lemma last_zip_with_app (word rows : list str) (j : nat) :
  0 < j -> rows_of_length j rows -> length word = length rows ->
  map last (zip_with app word rows) = map last rows.
Proof.
  intros Hj Hr. revert word. induction Hr as [|r rows Hr Hrs IH]; intros word Hl.
  - by destruct word.
  - destruct word as [|c word]; [done|]. simpl. rewrite IH by (simpl in Hl; lia).
    f_equal. rewrite last_app. destruct (last r) eqn:E; [done|].
    apply last_None in E. subst r. simpl in Hr. lia.
Qed.

Lemma last_loop_body (word rows : list str) (j : nat) :
  0 < j -> rows_of_length j rows -> length word = length rows ->
  map last (loop_body word rows) ≡ₚ map last rows.
Proof.
  intros Hj Hr Hl. unfold loop_body.
  rewrite <- (last_zip_with_app word rows j) by done.
  apply (fmap_Permutation last), np_sort_perm.
Qed.

Lemma last_iter_loop_body (d : nat) (word rows : list str) (j : nat) :
  0 < j -> rows_of_length 1 word -> rows_of_length j rows ->
  length word = length rows ->
  map last (Nat.iter d (loop_body word) rows) ≡ₚ map last rows.
Proof.
  intros Hj Hw Hr Hl. induction d as [|d IH]; [done|].
  simpl. rewrite <- IH.
  apply (last_loop_body _ _ (d + j)); [lia | by apply iter_loop_body_rows |].
  by rewrite iter_loop_body_length.
Qed.

(** The rows the loop of [BWTtoDNA] leaves with end in the characters of
    the input, each as often as it occurs there. *)
Lemma final_rows_last (word : str) :
  word <> [] ->
  map last (Nat.iter (length word - 1) (loop_body (map (fun c => [c]) word))
              (np_sort (map (fun c => [c]) word)))
  ≡ₚ map Some word.
Proof.
  intros Hne. rewrite (last_iter_loop_body _ _ _ 1).
  - trans (map last (map (fun c : ascii => [c]) word)).
    + apply (fmap_Permutation last), np_sort_perm.
    + by rewrite map_map.
  - lia.
  - apply singletons_rows.
  - unfold rows_of_length. rewrite np_sort_perm. apply singletons_rows.
  - by rewrite np_sort_length.
Qed.

Lemma ends_with_dollar_last (r : str) :
  ends_with_dollar r = true <-> last r = Some "$".
Proof.
  unfold ends_with_dollar. destruct (last r) as [c|]; [|done].
  rewrite Ascii.eqb_eq. split; congruence.
Qed.

Lemma filter_dollar_nil (rows : list str) :
  Some "$" ∉ map last rows ->
  filter (fun perm => ends_with_dollar perm = true) rows = [].
Proof.
  induction rows as [|r rows IH]; [done|]. simpl. intros Hnot.
  rewrite not_elem_of_cons in Hnot. destruct Hnot as [Hr Hrs].
  rewrite filter_cons_False; [by apply IH|].
  rewrite ends_with_dollar_last. congruence.
Qed.

Lemma filter_dollar_cons (rows : list str) :
  Some "$" ∈ map last rows ->
  exists res rest,
    filter (fun perm => ends_with_dollar perm = true) rows = res :: rest
    /\ res ∈ rows.
Proof.
  induction rows as [|r rows IH]; simpl; intros Hin.
  - by apply elem_of_nil in Hin.
  - destruct (decide (ends_with_dollar r = true)) as [Hr|Hr].
    + exists r, (filter (fun perm => ends_with_dollar perm = true) rows).
      split; [by apply filter_cons_True | by left].
    + rewrite filter_cons_False by done.
      apply elem_of_cons in Hin as [Hin|Hin].
      * by rewrite ends_with_dollar_last in Hr.
      * destruct (IH Hin) as (res & rest & E & Hres).
        exists res, rest. split; [done | by right].
Qed.

(** Rotation [i] written with slices. *)
Lemma rotation_slices (i : nat) (w : str) :
  i <= length w ->
  rotation i w = drop (length w - i) w ++ take (length w - i) w.
Proof.
  intros Hi.
  pose proof (rotation_app (take (length w - i) w) (drop (length w - i) w)) as E.
  rewrite take_drop, length_drop in E.
  by replace (length w - (length w - i)) with i in E by lia.
Qed.

(** Among the rotations of [seq + "$"] only the word itself ends in [$]. *)
Lemma rotations_select (seq : str) :
  "$" ∉ seq ->
  filter (fun perm => ends_with_dollar perm = true)
    (rotations (length (seq ++ ["$"])) (seq ++ ["$"]))
  = [seq ++ ["$"]].
Proof.
  intros Hseq. rewrite length_app. simpl.
  replace (length seq + 1) with (S (length seq)) by lia.
  rewrite rotations_snoc, filter_app.
  replace (S (length seq)) with (length (seq ++ ["$"]))
    by (rewrite length_app; simpl; lia).
  rewrite rotation_full.
  rewrite (filter_singleton_True _ (seq ++ ["$"]) [])
    by (apply ends_with_dollar_last, last_snoc).
  rewrite filter_dollar_nil; [done|].
  rewrite rotations_rotation, map_map. intros Hin.
  apply list_elem_of_fmap in Hin as (i & Hlast & Hi).
  apply elem_of_seq in Hi. symmetry in Hlast.
  rewrite rotation_slices in Hlast by (rewrite length_app; simpl; lia).
  rewrite length_app in Hlast. simpl in Hlast.
  rewrite (take_app_le seq) in Hlast by lia.
  rewrite last_app in Hlast.
  destruct (last (take (length seq + 1 - S i) seq)) as [c|] eqn:E.
  - injection Hlast as ->. apply last_Some_elem_of in E.
    apply Hseq. by eapply subseteq_take.
  - apply last_None in E. apply (f_equal length) in E.
    rewrite length_take in E. simpl in E. lia.
Qed.

Lemma matrix_select (seq : str) :
  "$" ∉ seq ->
  filter (fun perm => ends_with_dollar perm = true) (matrix (seq ++ ["$"]))
  = [seq ++ ["$"]].
Proof.
  intros Hseq. apply Permutation_singleton_r.
  rewrite <- (rotations_select seq Hseq).
  unfold matrix. by rewrite np_sort_perm.
Qed.

(** [BWTtoDNA] returns a row exactly when its input holds a [$]. *)
Lemma BWTtoDNA_returns (word : str) :
  "$" ∈ word -> exists res, BWTtoDNA word = Returns res /\ length res = length word.
Proof.
  intros Hin. assert (word <> []) as Hne by (by intros ->; apply elem_of_nil in Hin).
  pose proof (loop_fuel_enough (length word) word Hne) as Hloop.
  pose proof (final_rows_last word Hne) as Hfinal.
  unfold BWTtoDNA, BWTtoDNA_fuel.
  set (W := map (fun c => [c]) word) in *.
  set (rows := Nat.iter (length word - 1) (loop_body W) (np_sort W)) in *.
  assert (rows_of_length (length word) rows) as Hrows.
  { assert (0 < length word) by (destruct word; [done | simpl; lia]).
    replace (length word) with (length word - 1 + 1) at 1 by lia.
    apply iter_loop_body_rows; [apply singletons_rows|].
    unfold rows_of_length. rewrite np_sort_perm. apply singletons_rows. }
  rewrite Hloop by lia. simpl.
  destruct (filter_dollar_cons rows) as (res & rest & -> & Hres).
  - rewrite Hfinal. by apply (list_elem_of_fmap_2 Some).
  - exists res. split; [done|].
    unfold rows_of_length in Hrows. rewrite Forall_forall in Hrows. auto.
Qed.

Lemma BWTtoDNA_raises (word : str) : "$" ∉ word -> BWTtoDNA word = IndexError.
Proof.
  intros Hnot. destruct word as [|c word]; [done|].
  assert (c :: word <> []) as Hne by done.
  pose proof (loop_fuel_enough (length (c :: word)) (c :: word) Hne) as Hloop.
  pose proof (final_rows_last (c :: word) Hne) as Hfinal.
  unfold BWTtoDNA, BWTtoDNA_fuel. rewrite Hloop by lia.
  cbn [mbind outcome_bind]. rewrite filter_dollar_nil; [done|].
  rewrite Hfinal. intros (a & [= <-] & Ha)%list_elem_of_fmap. done.
Qed.

End selection.

(** ** The transform engine: claims *)

Section engine.

Lemma count_elem_of (c : ascii) (s : str) : 0 < Py.count c s <-> c ∈ s.
Proof.
  unfold Py.count. induction s as [|a s IH].
  - split; [simpl; lia | by intros ?%elem_of_nil].
  - rewrite filter_cons, elem_of_cons. destruct (decide (a = c)) as [->|Hne].
    + simpl. split; [by left | lia].
    + rewrite IH. split; [by right | intros [?|?]; [congruence | done]].
Qed.

Lemma validDNA_no_dollar (seq : str) :
  Forall (fun c => c ∈ validDNA) seq -> "$" ∉ seq.
Proof.
  intros Hall Hin. rewrite Forall_forall in Hall. apply Hall in Hin.
  revert Hin. change (¬ ("$" ∈ validDNA)).
  apply (bool_decide_eq_true_1 _). vm_compute. reflexivity.
Qed.

(** The round trip needs no more of the sequence than the absence of [$]: it
    holds for lower-case sequences and for the empty one as well. *)
Lemma round_trip_no_dollar (seq : str) :
  "$" ∉ seq -> BWTtoDNA (DNAtoBWT (seq ++ ["$"])) = Returns (seq ++ ["$"]).
Proof.
  intros Hseq. unfold BWTtoDNA, BWTtoDNA_fuel. rewrite DNAtoBWT_length.
  rewrite BWTtoDNA_loop_matrix by (by destruct seq).
  simpl. by rewrite matrix_select.
Qed.

(** C1: for every non-empty sequence over the permitted alphabet,
    [BWTtoDNA(DNAtoBWT(seq + "$"))] is [seq + "$"]. *)
Theorem BWT_round_trip (seq : str) :
  seq <> [] ->
  Forall (fun c => c ∈ validDNA) seq ->
  BWTtoDNA (DNAtoBWT (seq ++ ["$"])) = Returns (seq ++ ["$"]).
Proof.
  intros Hne Hseq. apply validDNA_no_dollar in Hseq.
  assert (seq ++ ["$"] <> []) as Hw by (by destruct seq).
  unfold BWTtoDNA, BWTtoDNA_fuel. rewrite DNAtoBWT_length.
  rewrite (BWTtoDNA_loop_matrix _ Hw). run_bind.
  by rewrite (matrix_select seq Hseq).
Qed.

Lemma BWT_round_trip_witness :
  BWTtoDNA (DNAtoBWT (s_ "GATTACA" ++ ["$"])) = Returns (s_ "GATTACA" ++ ["$"]).
Proof.
  apply (BWT_round_trip (s_ "GATTACA")).
  - vm_compute. discriminate.
  - apply (bool_decide_eq_true_1 _). vm_compute. reflexivity.
Defined.

(** C9: on a non-empty word of length [n] with exactly one [$] the
    prepend-and-resort loop of [BWTtoDNA] leaves after exactly [n - 1]
    iterations, for every amount of fuel that allows [n - 1] iterations, with
    [n] rows of length [n]; and [BWTtoDNA] returns a row. *)
Theorem BWTtoDNA_iterations (word : str) :
  word <> [] ->
  Py.count "$" word = 1 ->
  (forall fuel, length word - 1 <= fuel ->
     exists rows,
       BWTtoDNA_loop fuel (map (fun c => [c]) word)
         (np_sort (map (fun c => [c]) word))
       = Returns (length word - 1, rows)
       /\ length rows = length word
       /\ rows_of_length (length word) rows)
  /\ exists res, BWTtoDNA word = Returns res /\ length res = length word.
Proof.
  intros Hne Hcount.
  assert (0 < length word) as Hpos by (destruct word; [done | simpl; lia]).
  split.
  - intros fuel Hfuel. eexists. split; [by apply loop_fuel_enough|]. split.
    + rewrite iter_loop_body_length; by rewrite np_sort_length, ?length_map.
    + pose proof (iter_loop_body_rows (map (fun c => [c]) word)
                    (np_sort (map (fun c => [c]) word)) 1 (length word - 1))
        as Hrows.
      replace (length word - 1 + 1) with (length word) in Hrows by lia.
      apply Hrows; [apply singletons_rows|].
      unfold rows_of_length. rewrite np_sort_perm. apply singletons_rows.
  - apply BWTtoDNA_returns, count_elem_of. lia.
Qed.

Lemma BWTtoDNA_iterations_witness :
  (forall fuel, length (s_ "T$ACG") - 1 <= fuel ->
     exists rows,
       BWTtoDNA_loop fuel (map (fun c => [c]) (s_ "T$ACG"))
         (np_sort (map (fun c => [c]) (s_ "T$ACG")))
       = Returns (length (s_ "T$ACG") - 1, rows)
       /\ length rows = length (s_ "T$ACG")
       /\ rows_of_length (length (s_ "T$ACG")) rows)
  /\ exists res, BWTtoDNA (s_ "T$ACG") = Returns res
                 /\ length res = length (s_ "T$ACG").
Proof.
  apply (BWTtoDNA_iterations (s_ "T$ACG")).
  - vm_compute. discriminate.
  - vm_compute. reflexivity.
Defined.

(** C10: on a non-empty word without [$] the loop of [BWTtoDNA] leaves with
    rows none of which ends in [$], and the selection of element [0] raises
    [IndexError]. *)
Theorem BWTtoDNA_without_dollar (word : str) :
  word <> [] ->
  "$" ∉ word ->
  exists rows,
    BWTtoDNA_loop (length word) (map (fun c => [c]) word)
      (np_sort (map (fun c => [c]) word))
    = Returns (length word - 1, rows)
    /\ Forall (fun perm => ends_with_dollar perm = false) rows
    /\ BWTtoDNA word = IndexError.
Proof.
  intros Hne Hnot.
  pose proof (loop_fuel_enough (length word) word Hne) as Hloop.
  pose proof (final_rows_last word Hne) as Hfinal.
  unfold BWTtoDNA, BWTtoDNA_fuel.
  set (W := map (fun c => [c]) word) in *.
  set (rows := Nat.iter (length word - 1) (loop_body W) (np_sort W)) in *.
  assert (Some "$" ∉ map last rows) as Hlast.
  { rewrite Hfinal. intros (c & [= <-] & Hc)%list_elem_of_fmap. done. }
  exists rows. split; [|split].
  - apply Hloop. lia.
  - apply Forall_forall. intros r Hr.
    destruct (ends_with_dollar r) eqn:E; [|done].
    exfalso. apply Hlast. apply ends_with_dollar_last in E. rewrite <- E.
    by apply (list_elem_of_fmap_2 last).
  - rewrite Hloop by lia. simpl. by rewrite filter_dollar_nil.
Qed.

Lemma BWTtoDNA_without_dollar_witness :
  exists rows,
    BWTtoDNA_loop (length (s_ "ACGT")) (map (fun c => [c]) (s_ "ACGT"))
      (np_sort (map (fun c => [c]) (s_ "ACGT")))
    = Returns (length (s_ "ACGT") - 1, rows)
    /\ Forall (fun perm => ends_with_dollar perm = false) rows
    /\ BWTtoDNA (s_ "ACGT") = IndexError.
Proof.
  apply (BWTtoDNA_without_dollar (s_ "ACGT")).
  - vm_compute. discriminate.
  - apply (bool_decide_eq_true_1 _). vm_compute. reflexivity.
Defined.

End engine.

(** ** The forward transform against the specification's construction *)

Section forward.

Lemma count_app (c : ascii) (x y : str) :
  Py.count c (x ++ y) = Py.count c x + Py.count c y.
Proof. unfold Py.count. by rewrite filter_app, length_app. Qed.

Lemma count_perm (c : ascii) (x y : str) :
  x ≡ₚ y -> Py.count c x = Py.count c y.
Proof. unfold Py.count. by intros ->. Qed.

Lemma first_pos_app_l (c : ascii) (x y : str) :
  c ∈ x -> first_pos c (x ++ y) = first_pos c x /\ first_pos c x < length x.
Proof.
  induction x as [|a x IH]; [by intros ?%elem_of_nil|].
  intros Hin. simpl. destruct (decide (a = c)) as [->|Hne]; [simpl; lia|].
  apply elem_of_cons in Hin as [?|Hin]; [congruence|].
  destruct (IH Hin). simpl. lia.
Qed.

Lemma first_pos_app_r (c : ascii) (x y : str) :
  c ∉ x -> first_pos c (x ++ y) = length x + first_pos c y.
Proof.
  induction x as [|a x IH]; [done|].
  intros [Hne Hnot]%not_elem_of_cons. simpl.
  destruct (decide (a = c)); [congruence|]. by rewrite IH.
Qed.

(** A word with exactly one [c] differs from its proper rotations. *)
Lemma rotation_neq (c : ascii) (d : nat) (v : str) :
  Py.count c v = 1 -> 0 < d < length v -> rotation d v <> v.
Proof.
  intros Hc Hd. rewrite rotation_slices by lia.
  set (x := take (length v - d) v). set (y := drop (length v - d) v).
  assert (v = x ++ y) as Hv by (symmetry; apply take_drop).
  assert (length x = length v - d) as Hx by (unfold x; rewrite length_take; lia).
  assert (length y = d) as Hy by (unfold y; rewrite length_drop; lia).
  intros E. rewrite Hv in E at 1. rewrite Hv in Hc. clearbody x y.
  rewrite count_app in Hc. apply (f_equal (first_pos c)) in E.
  destruct (decide (c ∈ x)) as [Hin|Hnot].
  - assert (c ∉ y) as Hny.
    { rewrite <- count_elem_of in Hin. rewrite <- count_elem_of. lia. }
    rewrite (first_pos_app_r c y x Hny) in E.
    destruct (first_pos_app_l c x y Hin) as [E' _]. lia.
  - assert (c ∈ y) as Hiny.
    { rewrite <- count_elem_of in Hnot. rewrite <- count_elem_of. lia. }
    rewrite (first_pos_app_r c x y Hnot) in E.
    destruct (first_pos_app_l c y x Hiny) as [E' _]. lia.
Qed.

Lemma rotation_add (i j : nat) (w : str) :
  rotation (i + j) w = rotation i (rotation j w).
Proof. apply Nat.iter_add. Qed.

Lemma rotation_inj (c : ascii) (w : str) (i j : nat) :
  Py.count c w = 1 -> i < j -> j - i < length w ->
  rotation i w <> rotation j w.
Proof.
  intros Hc Hij Hn E.
  replace j with ((j - i) + i) in E by lia. rewrite rotation_add in E.
  symmetry in E. revert E. apply (rotation_neq c).
  - by rewrite (count_perm c _ w (rotation_perm i w)).
  - rewrite rotation_length. lia.
Qed.

(** With exactly one [$] the [n] rotations are pairwise distinct. *)
Lemma spec_rotations_NoDup (w : str) :
  Py.count "$" w = 1 -> NoDup (spec_rotations w).
Proof.
  intros Hc. unfold spec_rotations.
  apply (NoDup_fmap_2_strong (fun i => rotation (S i) w)); [|apply NoDup_seq].
  intros i j Hi%elem_of_seq Hj%elem_of_seq E.
  destruct (Nat.lt_trichotomy i j) as [Hlt|[->|Hlt]]; [|done|].
  - exfalso. revert E. apply (rotation_inj "$"); [done | lia | lia].
  - exfalso. symmetry in E. revert E.
    apply (rotation_inj "$"); [done | lia | lia].
Qed.

Lemma sorted_NoDup_strict (a : list str) :
  Sorted Py.le a -> NoDup a -> StronglySorted Py.lt a.
Proof.
  intros Hs%(Sorted_StronglySorted Py.le). induction Hs as [|x a Ha IH Hx].
  - constructor.
  - intros [Hnot Hnd]%NoDup_cons. constructor; [by apply IH|].
    rewrite Forall_forall in Hx. apply Forall_forall. intros y Hy.
    split; [by apply Hx | by intros ->].
Qed.

Lemma last1_last (r : str) (c : ascii) : last r = Some c -> Py.last1 r = [c].
Proof.
  intros (l & ->)%last_Some. unfold Py.last1. rewrite length_app. simpl.
  replace (length l + 1 - 1) with (length l) by lia.
  by rewrite drop_app_length.
Qed.

Lemma last_column_last (rows : list str) :
  Forall (fun r => r <> []) rows ->
  map Some (concat (map Py.last1 rows)) = map last rows.
Proof.
  induction 1 as [|r rows Hr Hrows IH]; [done|].
  simpl. rewrite map_app, IH. destruct (last r) as [c|] eqn:E.
  - by rewrite (last1_last r c E).
  - by apply last_None in E.
Qed.

(** C4: for a word with exactly one [$], the [n] rotations of the
    specification are pairwise distinct, and [DNAtoBWT(word)] is the sequence
    of the last characters of these rotations taken in strictly ascending
    lexicographic order. *)
Theorem DNAtoBWT_sorted_rotations (word : str) :
  Py.count "$" word = 1 ->
  length (spec_rotations word) = length word
  /\ NoDup (spec_rotations word)
  /\ exists rows,
       rows ≡ₚ spec_rotations word
       /\ StronglySorted Py.lt rows
       /\ map Some (DNAtoBWT word) = map last rows.
Proof.
  intros Hc. split; [|split].
  - unfold spec_rotations. by rewrite length_map, length_seq.
  - by apply spec_rotations_NoDup.
  - exists (matrix word). unfold matrix. rewrite rotations_spec.
    split; [apply np_sort_perm | split].
    + apply sorted_NoDup_strict; [apply np_sort_sorted|].
      rewrite np_sort_perm. by apply spec_rotations_NoDup.
    + unfold DNAtoBWT. rewrite join_nil, rotations_spec.
      apply last_column_last.
      rewrite np_sort_perm, <- rotations_spec.
      eapply Forall_impl; [apply rotations_rows|].
      intros r Hr ->. by destruct word.
Qed.

Lemma DNAtoBWT_sorted_rotations_witness :
  length (spec_rotations (s_ "ACGT$")) = length (s_ "ACGT$")
  /\ NoDup (spec_rotations (s_ "ACGT$"))
  /\ exists rows,
       rows ≡ₚ spec_rotations (s_ "ACGT$")
       /\ StronglySorted Py.lt rows
       /\ map Some (DNAtoBWT (s_ "ACGT$")) = map last rows.
Proof.
  apply (DNAtoBWT_sorted_rotations (s_ "ACGT$")).
  vm_compute. reflexivity.
Defined.

End forward.

(** ** The alphabet validator *)

Section validator.

Lemma replace_char (c : ascii) (s : str) :
  Py.replace [c] [] s = filter (fun a => a <> c) s.
Proof.
  unfold Py.replace. induction s as [|a s IH]; [done|].
  cbn [Py.replace_from Py.startswith length]. rewrite andb_true_r, IH.
  destruct (Ascii.eqb_spec c a) as [->|Hne].
  - by rewrite filter_cons_False by (intros H; by apply H).
  - by rewrite filter_cons_True by congruence.
Qed.

Lemma in_validDNA_spec (c : ascii) : in_validDNA c = true <-> c ∈ validDNA.
Proof.
  unfold in_validDNA. rewrite existsb_exists. split.
  - intros (a & Ha & ->%Ascii.eqb_eq). by apply list_elem_of_In.
  - intros Hc. exists c. split; [by apply list_elem_of_In | apply Ascii.eqb_refl].
Qed.

(** C2, as the code has it: [validate_input(body)] is [True] exactly when,
    after every [$] of the body has been removed, the rest is non-empty and
    each of its characters, upper-cased, is in the alphabet.  The function is
    total: it is a boolean function with no failure path. *)
Theorem validate_input_spec (body : str) :
  validate_input body = true <->
  let stripped := filter (fun c => c <> "$") body in
  stripped <> [] /\ Forall (fun c => Py.upper c ∈ validDNA) stripped.
Proof.
  unfold validate_input. rewrite replace_char. simpl.
  set (stripped := filter (fun c => c <> "$") body).
  destruct (Nat.eqb_spec (length stripped) 0) as [E|E]; simpl.
  - split; [done|]. intros [Hne _]. by destruct stripped.
  - destruct (forallb _ stripped) eqn:Hall; simpl.
    + split; [|done]. intros _. split; [by intros ->|].
      rewrite forallb_forall in Hall. apply Forall_forall. intros c Hc.
      by apply in_validDNA_spec, Hall, list_elem_of_In.
    + split; [done|]. intros [_ HF]. rewrite Forall_forall in HF.
      assert (forallb (fun nucl => in_validDNA (Py.upper nucl)) stripped = true);
        [|congruence].
      apply forallb_forall. intros c Hc.
      by apply in_validDNA_spec, HF, list_elem_of_In.
Qed.

(** C2, as stated, fails: the body [A$$] is accepted although one [$] is
    left when at most one is stripped. *)
Lemma validate_input_two_dollars :
  validate_input (s_ "A$$") = true /\ spec_validate (s_ "A$$") = false.
Proof. split; vm_compute; reflexivity. Qed.

Lemma strip_one_filter (c : ascii) (s : str) :
  Py.count c s <= 1 -> strip_one c s = filter (fun a => a <> c) s.
Proof.
  unfold Py.count. induction s as [|a s IH]; [done|]. simpl.
  rewrite filter_cons. destruct (Ascii.eqb_spec a c) as [->|Hne].
  - rewrite decide_True by done. simpl. intros Hc.
    rewrite filter_cons_False by (intros H; by apply H).
    assert (c ∉ s) as Hnot.
    { rewrite <- count_elem_of. unfold Py.count. lia. }
    clear -Hnot. induction s as [|b s IH]; [done|].
    apply not_elem_of_cons in Hnot as [? ?].
    rewrite filter_cons_True by congruence. f_equal. by apply IH.
  - rewrite decide_False by done. intros Hc.
    rewrite filter_cons_True by done. f_equal. by apply IH.
Qed.

(** With at most one [$] in the body the two readings agree. *)
Lemma validate_input_at_most_one (body : str) :
  Py.count "$" body <= 1 -> validate_input body = spec_validate body.
Proof.
  intros Hc. unfold validate_input, spec_validate.
  rewrite replace_char, strip_one_filter by done.
  set (stripped := filter _ body).
  by destruct (Nat.eqb (length stripped) 0), (forallb _ stripped).
Qed.

End validator.

(** ** Framing *)

Section framing.

Lemma contains_cons (old : str) (c : ascii) (s : str) :
  Py.contains old (c :: s) = Py.startswith old (c :: s) || Py.contains old s.
Proof. done. Qed.

Lemma replace_from_cons (old new : str) (c : ascii) (s : str) :
  Py.replace_from old new 0 (c :: s)
  = if Py.startswith old (c :: s)
    then new ++ Py.replace_from old new (length old - 1) s
    else c :: Py.replace_from old new 0 s.
Proof. done. Qed.

Lemma startswith_end_cons (a b : ascii) (s : str) :
  Py.startswith end_ (a :: b :: s) = Ascii.eqb "/" a && Ascii.eqb "0" b.
Proof.
  unfold end_, s_. cbn [list_ascii_of_string Py.startswith].
  by rewrite andb_true_r.
Qed.

Lemma startswith_end_short (a : ascii) : Py.startswith end_ [a] = false.
Proof.
  unfold end_, s_. cbn [list_ascii_of_string Py.startswith].
  by rewrite andb_false_r.
Qed.

Lemma remove_end_skip (p rest : str) :
  end_free p -> remove_end (p ++ end_ ++ rest) = p ++ remove_end rest.
Proof.
  unfold end_free, remove_end, Py.replace.
  induction p as [|c p IH]; intros Hfree; [done|].
  rewrite contains_cons in Hfree. apply orb_false_iff in Hfree as [Hhead Hfree].
  rewrite <- !app_comm_cons, replace_from_cons.
  assert (Py.startswith end_ (c :: p ++ end_ ++ rest) = false) as ->.
  { destruct p as [|d p].
    - change ([] ++ end_ ++ rest) with ("/" :: "0" :: rest).
      rewrite startswith_end_cons. apply andb_false_r.
    - rewrite <- app_comm_cons, startswith_end_cons.
      by rewrite startswith_end_cons in Hhead. }
  f_equal. by apply IH.
Qed.

Lemma remove_end_free (p : str) : end_free p -> remove_end p = p.
Proof.
  unfold end_free, remove_end, Py.replace.
  induction p as [|c p IH]; intros Hfree; [done|].
  rewrite contains_cons in Hfree. apply orb_false_iff in Hfree as [Hhead Hfree].
  rewrite replace_from_cons, Hhead. f_equal. by apply IH.
Qed.

Lemma remove_end_join (parts : list str) :
  Forall end_free parts -> remove_end (Py.join end_ parts) = concat parts.
Proof.
  induction 1 as [|p parts Hp Hparts IH]; [done|].
  destruct parts as [|q parts].
  - simpl. rewrite app_nil_r. by apply remove_end_free.
  - change (Py.join end_ (p :: q :: parts))
      with (p ++ end_ ++ Py.join end_ (q :: parts)).
    rewrite remove_end_skip by done. by rewrite IH.
Qed.

Lemma push_nonempty (a : ascii) (parts : list str) : push a parts <> [].
Proof. by destruct parts. Qed.

Lemma push_head (a b : ascii) (parts : list str) (p : str) (ps : list str) :
  push a parts = (b :: p) :: ps -> a = b.
Proof. destruct parts; by intros [= -> _]. Qed.

Lemma split_end_nonempty (s : str) : split_end s <> [].
Proof.
  destruct s as [|a [|b rest]]; cbn [split_end];
    [done | apply push_nonempty |].
  destruct (_ && _); [done | apply push_nonempty].
Qed.

Lemma join_push (a : ascii) (parts : list str) :
  parts <> [] -> Py.join end_ (push a parts) = a :: Py.join end_ parts.
Proof. destruct parts as [|p [|q ps]]; done. Qed.

Lemma split_end_cons (a : ascii) (s : str) :
  Py.startswith end_ (a :: s) = false ->
  split_end (a :: s) = push a (split_end s).
Proof.
  destruct s as [|b rest]; [done|].
  rewrite startswith_end_cons. cbn [split_end]. by intros ->.
Qed.

Lemma split_end_join (s : str) : Py.join end_ (split_end s) = s.
Proof.
  induction s as [s IH] using (induction_ltof1 _ (@length ascii)).
  unfold ltof in IH. destruct s as [|a s]; [done|].
  destruct (Py.startswith end_ (a :: s)) eqn:E.
  - destruct s as [|b rest]; [by rewrite startswith_end_short in E|].
    rewrite startswith_end_cons in E. cbn [split_end]. rewrite E.
    apply andb_true_iff in E as [<-%Ascii.eqb_eq <-%Ascii.eqb_eq].
    pose proof (split_end_nonempty rest) as Hne.
    pose proof (IH rest ltac:(simpl; lia)) as IHrest.
    destruct (split_end rest) as [|q ps]; [done|].
    change (Py.join end_ ([] :: q :: ps)) with (end_ ++ Py.join end_ (q :: ps)).
    by rewrite IHrest.
  - rewrite split_end_cons by done.
    rewrite join_push by apply split_end_nonempty.
    f_equal. apply IH. simpl. lia.
Qed.

Lemma split_end_head (s : str) (b : ascii) (p : str) (ps : list str) :
  split_end s = (b :: p) :: ps -> exists s', s = b :: s'.
Proof.
  destruct s as [|a [|c rest]]; cbn [split_end]; [done|..].
  - intros <-%push_head. eauto.
  - destruct (_ && _); [done|]. intros <-%push_head. eauto.
Qed.

Lemma split_end_free (s : str) : Forall end_free (split_end s).
Proof.
  induction s as [s IH] using (induction_ltof1 _ (@length ascii)).
  unfold ltof in IH. destruct s as [|a s]; [by repeat constructor|].
  destruct (Py.startswith end_ (a :: s)) eqn:E.
  - destruct s as [|b rest]; [by rewrite startswith_end_short in E|].
    rewrite startswith_end_cons in E. cbn [split_end]. rewrite E.
    constructor; [done | apply IH; simpl; lia].
  - rewrite split_end_cons by done.
    pose proof (IH s ltac:(simpl; lia)) as IHs.
    pose proof (split_end_head s) as Hhead.
    pose proof (split_end_nonempty s) as Hne.
    destruct (split_end s) as [|p ps]; [done|].
    apply Forall_cons in IHs as [Hp Hps]. constructor; [|done].
    unfold end_free. rewrite contains_cons. apply orb_false_iff. split; [|done].
    destruct p as [|b p]; [apply startswith_end_short|].
    destruct (Hhead b p ps eq_refl) as (s' & ->).
    by rewrite startswith_end_cons in *.
Qed.

Lemma recv_loop_contains (chunks : list str) (msg buf : str) :
  recv_loop chunks msg = Some buf -> Py.contains end_ buf = true.
Proof.
  revert msg. induction chunks as [|chunk chunks IH]; intros msg; [done|].
  cbn [recv_loop]. destruct (Py.contains end_ (msg ++ chunk)) eqn:E.
  - by intros [= <-].
  - apply IH.
Qed.

(** *** UTF-8 on the code points of the model *)

Lemma encode_char_cases (c : ascii) :
  Py.encode_char c = [c]
  \/ (exists l k, Py.encode_char c = [l; k]
      /\ Ascii.eqb "/" l = false /\ Ascii.eqb "/" k = false
      /\ Ascii.eqb "/" c = false /\ Ascii.eqb "0" l = false
      /\ Ascii.eqb "0" c = false).
Proof.
  destruct c as [[] [] [] [] [] [] [] []];
    first [by left | right; eexists _, _; by repeat split].
Qed.

Lemma decode_encode_char (c : ascii) (b : str) :
  Py.decode (Py.encode_char c ++ b) = cons c <$> Py.decode b.
Proof. destruct c as [[] [] [] [] [] [] [] []]; reflexivity. Qed.

Lemma encode_cons (c : ascii) (t : str) :
  Py.encode (c :: t) = Py.encode_char c ++ Py.encode t.
Proof. done. Qed.

Lemma decode_encode_app (t b : str) :
  Py.decode (Py.encode t ++ b) = app t <$> Py.decode b.
Proof.
  induction t as [|c t IH].
  - simpl. by destruct (Py.decode b).
  - rewrite encode_cons, <- app_assoc, decode_encode_char, IH.
    by destruct (Py.decode b).
Qed.

(** Decoding undoes encoding: every text of the model goes through the
    wire unchanged. *)
Lemma decode_encode (t : str) : Py.decode (Py.encode t) = Some t.
Proof.
  rewrite <- (app_nil_r (Py.encode t)), decode_encode_app. simpl.
  by rewrite app_nil_r.
Qed.

Lemma encode_char_two (x y : ascii) :
  Nat.eqb (Py.ord x) 194 || Nat.eqb (Py.ord x) 195 = true ->
  Nat.leb 128 (Py.ord y) && Nat.leb (Py.ord y) 191 = true ->
  Py.encode_char (ascii_of_nat ((Py.ord x - 192) * 64 + (Py.ord y - 128)))
  = [x; y].
Proof.
  intros Hx Hy.
  assert (x = ascii_of_nat 194 \/ x = ascii_of_nat 195) as [-> | ->].
  { apply orb_true_iff in Hx as [E%Nat.eqb_eq | E%Nat.eqb_eq];
      [left | right]; by apply ord_inj. }
  all: destruct y as [[] [] [] [] [] [] [] []];
    first [discriminate Hy | reflexivity].
Qed.

(** The buffers [Py.decode] accepts are the encodings of the texts of the
    model. *)
Lemma decode_Some_encode (b t : str) : Py.decode b = Some t -> b = Py.encode t.
Proof.
  revert t. induction b as [b IH] using (induction_ltof1 _ (@length ascii)).
  unfold ltof in IH. intros t. destruct b as [|x rest]; [by intros [= <-]|].
  cbn [Py.decode]. destruct (Nat.ltb (Py.ord x) 128) eqn:Hx.
  - destruct (Py.decode rest) as [t'|] eqn:E; [|done]. intros [= <-].
    rewrite encode_cons, <- (IH rest ltac:(simpl; lia) t' E).
    unfold Py.encode_char. by rewrite Hx.
  - destruct (_ || _) eqn:Hlead; [|done].
    destruct rest as [|y rest']; [done|].
    destruct (_ && _) eqn:Hcont; [|done].
    destruct (Py.decode rest') as [t'|] eqn:E; [|done]. intros [= <-].
    rewrite encode_cons, <- (IH rest' ltac:(simpl; lia) t' E).
    by rewrite encode_char_two.
Qed.

Lemma startswith_end_encode (t : str) :
  Py.startswith end_ (Py.encode t) = Py.startswith end_ t.
Proof.
  destruct t as [|c t]; [done|]. rewrite encode_cons.
  destruct (encode_char_cases c)
    as [-> | (l & k & -> & Hl & Hk & Hc & Hl0 & Hc0)].
  - destruct t as [|d t]; [done|]. rewrite encode_cons.
    destruct (encode_char_cases d)
      as [-> | (l & k & -> & Hl & Hk & Hd & Hl0 & Hd0)].
    + done.
    + cbn [app]. by rewrite !startswith_end_cons, Hl0, Hd0.
  - cbn [app]. rewrite startswith_end_cons, Hl.
    destruct t as [|d t]; [by rewrite startswith_end_short|].
    by rewrite startswith_end_cons, Hc.
Qed.

(** The termination sequence occurs in the bytes of a text exactly when it
    occurs in the text. *)
Lemma contains_end_encode (t : str) :
  Py.contains end_ (Py.encode t) = Py.contains end_ t.
Proof.
  induction t as [|c t IH]; [done|].
  rewrite contains_cons, <- IH, <- startswith_end_encode, encode_cons.
  destruct (encode_char_cases c)
    as [-> | (l & k & -> & Hl & Hk & Hc & Hl0 & Hc0)].
  - cbn [app]. by rewrite contains_cons.
  - cbn [app]. rewrite !contains_cons, startswith_end_cons, Hl.
    destruct (Py.encode t) as [|e bs]; [by rewrite startswith_end_short|].
    by rewrite startswith_end_cons, Hk.
Qed.

Lemma encode_end_free (t : str) : end_free t -> end_free (Py.encode t).
Proof. unfold end_free. by rewrite contains_end_encode. Qed.

(** On ASCII text the bytes are the characters. *)
Lemma encode_ascii_text (t : str) : ascii_text t -> Py.encode t = t.
Proof.
  induction 1 as [|c t Hc _ IH]; [done|].
  rewrite encode_cons, IH. unfold Py.encode_char.
  by apply Nat.ltb_lt in Hc as ->.
Qed.

(** C3, as the code has it: once the termination sequence is in the
    accumulated buffer and the buffer decodes, the text handed to the parser
    (server) or to the printers (client) is the decoded text with every
    occurrence of [/0] removed: the decoded text is a sequence of at least
    two pieces free of [/0] joined by [/0], and the text handed on is the
    concatenation of the pieces, whichever way the decoded text is cut into
    such pieces. *)
Theorem framing_strips_every_end (chunks : list str) (buf text : str) :
  recv_loop chunks [] = Some buf ->
  Py.decode buf = Some text ->
  Py.contains end_ buf = true
  /\ (exists parts,
        1 < length parts /\ Forall end_free parts /\ text = Py.join end_ parts)
  /\ (forall parts,
        Forall end_free parts -> text = Py.join end_ parts ->
        recv_message chunks = Some (Text (concat parts))
        /\ client_connect_recv chunks = Some (Text (concat parts))).
Proof.
  intros Hloop Hdec. pose proof (recv_loop_contains _ _ _ Hloop) as Hc.
  split; [done|]. split.
  - exists (split_end text).
    split; [|split; [apply split_end_free | by rewrite split_end_join]].
    rewrite (decode_Some_encode _ _ Hdec), contains_end_encode in Hc.
    pose proof (split_end_free text) as Hfree.
    pose proof (split_end_join text) as Hjoin.
    destruct (split_end text) as [|p [|q ps]]; [| |simpl; lia].
    + simpl in Hjoin. by subst text.
    + simpl in Hjoin. subst p. apply Forall_cons in Hfree as [Hfree _].
      unfold end_free in Hfree. congruence.
  - intros parts Hfree ->. unfold client_connect_recv, recv_message.
    rewrite Hloop. simpl. by rewrite Hdec, remove_end_join.
Qed.

Lemma framing_strips_every_end_witness :
  Py.contains end_ (s_ ">s/0ACGT/0") = true
  /\ (exists parts,
        1 < length parts /\ Forall end_free parts
        /\ s_ ">s/0ACGT/0" = Py.join end_ parts)
  /\ (forall parts,
        Forall end_free parts -> s_ ">s/0ACGT/0" = Py.join end_ parts ->
        recv_message [s_ ">s"; s_ "/0ACGT/0"] = Some (Text (concat parts))
        /\ client_connect_recv [s_ ">s"; s_ "/0ACGT/0"]
           = Some (Text (concat parts))).
Proof.
  apply (framing_strips_every_end [s_ ">s"; s_ "/0ACGT/0"]
           (s_ ">s/0ACGT/0") (s_ ">s/0ACGT/0")).
  - vm_compute. reflexivity.
  - vm_compute. reflexivity.
Defined.

Lemma strips_one_length (sep buf out : str) :
  strips_one_occurrence sep buf out -> length buf = length out + length sep.
Proof.
  intros (pre & post & -> & ->). rewrite !length_app. lia.
Qed.

(** C3, as stated, fails: a payload whose header holds [/0] loses that
    occurrence as well as the terminator; the text parsed is not the buffer
    with one occurrence taken out. *)
Lemma framing_strips_two :
  recv_loop [s_ ">s"; s_ "/0ACGT/0"] [] = Some (s_ ">s/0ACGT/0")
  /\ recv_message [s_ ">s"; s_ "/0ACGT/0"] = Some (Text (s_ ">sACGT"))
  /\ ~ strips_one_occurrence end_ (s_ ">s/0ACGT/0") (s_ ">sACGT").
Proof.
  split; [vm_compute; reflexivity|]. split; [vm_compute; reflexivity|].
  intros H%strips_one_length. vm_compute in H. discriminate.
Qed.

End framing.

(** ** The batch parser *)

Section parser.

Lemma split_from_fields (sep : ascii) (cur s : str) :
  sep ∉ cur -> Forall (fun f => sep ∉ f) (Py.split_from sep cur s).
Proof.
  revert cur. induction s as [|c s IH]; intros cur Hcur; simpl.
  - by repeat constructor.
  - destruct (Ascii.eqb_spec c sep) as [->|Hne].
    + constructor; [done|]. apply IH, not_elem_of_nil.
    + apply IH. rewrite not_elem_of_app, not_elem_of_cons.
      split; [done|]. split; [congruence | apply not_elem_of_nil].
Qed.

Lemma lstrip_id (c : ascii) (s : str) : c ∉ s -> Py.lstrip c s = s.
Proof.
  destruct s as [|a s]; [done|]. intros [Hne _]%not_elem_of_cons. simpl.
  destruct (Ascii.eqb_spec a c); [congruence | done].
Qed.

Lemma strip_id (c : ascii) (s : str) : c ∉ s -> Py.strip c s = s.
Proof.
  intros Hc. unfold Py.strip, Py.rstrip. rewrite (lstrip_id c s Hc).
  rewrite lstrip_id; [apply rev_involutive|].
  intros Hin. apply Hc, list_elem_of_In, in_rev. by apply list_elem_of_In.
Qed.

Lemma nonempty_lines_clean (msg : str) :
  Forall (fun line => Py.strip "010" line = line) (nonempty_lines msg).
Proof.
  unfold nonempty_lines, Py.split. apply Forall_forall.
  intros line [_ Hin]%list_elem_of_filter. apply strip_id.
  pose proof (split_from_fields "010" [] msg (not_elem_of_nil _)) as Hall.
  rewrite Forall_forall in Hall. by apply Hall.
Qed.

Lemma close_record_result (i : nat) (st : scan) :
  0 < i ->
  close_record i st
  = '(e, o) ← record_result (header st) (elem st);
    mret (Scan (elem st) (header st) (error_headers st ++ e) (out st ++ o)).
Proof.
  intros Hi. unfold close_record, record_result.
  destruct (Nat.ltb_spec 0 i); [|lia]. rewrite andb_true_r.
  destruct (negb (validate_input (elem st))).
  { simpl. by rewrite app_nil_r. }
  destruct (Py.startswith [">"] (header st)).
  { simpl. by rewrite <- (assoc_L (++)), app_nil_r. }
  destruct (Py.startswith ["<"] (header st)).
  { destruct (BWTtoDNA (elem st)); simpl; [|done..].
    by rewrite <- (assoc_L (++)), app_nil_r. }
  simpl. rewrite !app_nil_r. by destruct st.
Qed.

Lemma records_cons (line : str) (lines : list str) :
  records (line :: lines)
  = if is_header line
    then ([], (line, (records lines).1) :: (records lines).2)
    else (line ++ (records lines).1, (records lines).2).
Proof. simpl. destruct (records lines). by destruct (is_header line). Qed.

(** The loop over the lines that follow the first header, ended by the
    closing header: every record is closed in turn. *)
Lemma scan_lines_records (lines : list str) :
  forall (i : nat) (st : scan),
    0 < i ->
    Forall (fun line => Py.strip "010" line = line) lines ->
    scan_lines i (lines ++ [["<"]]) st
    = '(e, o) ← batch_result
                  ((header st, elem st ++ (records lines).1) :: (records lines).2);
      mret (Scan [] ["<"] (error_headers st ++ e) (out st ++ o)).
Proof.
  induction lines as [|line lines IH]; intros i st Hi Hclean.
  - cbn [app scan_lines records fst snd batch_result].
    change (is_header ["<"]) with true. unfold scan_line.
    change (is_header ["<"]) with true. cbn iota.
    rewrite close_record_result by done. rewrite app_nil_r.
    destruct (record_result (header st) (elem st)) as [[e o]| |]; [|done..].
    simpl. by rewrite !app_nil_r.
  - apply Forall_cons in Hclean as [Hline Hclean].
    rewrite records_cons. cbn [app scan_lines]. unfold scan_line.
    destruct (records lines) as [body rs] eqn:Hrec.
    destruct (is_header line) eqn:Hh; cbn [fst snd].
    + rewrite close_record_result by done. rewrite app_nil_r.
      cbn [batch_result fst snd].
      destruct (record_result (header st) (elem st)) as [[e o]| |]; [|done..].
      run_bind.
      rewrite IH by (done || lia). cbn [fst snd header elem app].
      cbn [batch_result fst snd error_headers out].
      destruct (record_result line body) as [[e1 o1]| |]; [|done..].
      run_bind.
      destruct (batch_result rs) as [[e2 o2]| |]; [|done..].
      run_bind.
      by rewrite !(assoc_L (++)).
    + run_bind.
      rewrite IH by (done || lia). rewrite Hline.
      cbn [fst snd header elem error_headers out].
      by rewrite (assoc_L (++)).
Qed.

Lemma checkAndTranslate_guard (msg : str) :
  Nat.ltb (length (nonempty_lines msg ++ [["<"]])) 3
  || negb (is_header (default [] (head (nonempty_lines msg ++ [["<"]]))))
  = rejects msg.
Proof.
  unfold rejects. rewrite length_app. simpl.
  destruct (nonempty_lines msg) as [|l0 [|l1 lines]]; [done..|].
  simpl. f_equal.
  destruct (Nat.ltb_spec (S (S (length lines + 1))) 3); [lia | done].
Qed.

(** [checkAndTranslate] processes the records of the batch in order. *)
Lemma checkAndTranslate_batch (msg : str) :
  checkAndTranslate msg
  = if rejects msg then Returns Rejected
    else '(e, o) ← batch_result (batch msg); mret (Accepted e o).
Proof.
  unfold checkAndTranslate. rewrite checkAndTranslate_guard.
  destruct (rejects msg) eqn:Hrej; [done|].
  unfold rejects in Hrej. apply orb_false_iff in Hrej as [_ Hhead].
  apply negb_false_iff in Hhead. unfold batch.
  pose proof (nonempty_lines_clean msg) as Hclean.
  destruct (nonempty_lines msg) as [|l0 lines]; [done|].
  simpl in Hhead. apply Forall_cons in Hclean as [_ Hclean].
  rewrite records_cons, Hhead.
  cbn [app scan_lines]. unfold scan_line at 1. rewrite Hhead.
  unfold close_record at 1.
  change (negb (validate_input (elem (Scan [] (s_ "%%%") [] []))) && Nat.ltb 0 0)
    with false.
  change (Py.startswith [">"] (header (Scan [] (s_ "%%%") [] []))) with false.
  change (Py.startswith ["<"] (header (Scan [] (s_ "%%%") [] []))) with false.
  cbn [mbind outcome_bind mret outcome_ret error_headers out].
  rewrite scan_lines_records by (done || lia).
  destruct (records lines) as [body rs]. cbn [fst snd header elem app].
  destruct (batch_result ((l0, body) :: rs)) as [[e o]| |]; done.
Qed.

End parser.

(** ** The batch parser and the response assembler: claims *)

Section batch.

Lemma startswith_marker (m : ascii) (h : str) :
  Py.startswith [m] h = true <-> exists label, h = m :: label.
Proof.
  destruct h as [|a label]; simpl.
  - split; [done | by intros [? ?]].
  - rewrite andb_true_r, Ascii.eqb_eq. split.
    + intros ->. eauto.
    + by intros [? [= -> _]].
Qed.

Lemma records_headers (lines : list str) :
  Forall (fun r => is_header r.1 = true) (records lines).2.
Proof.
  induction lines as [|line lines IH]; [constructor|].
  rewrite records_cons. destruct (is_header line) eqn:Hh; [|done].
  by constructor.
Qed.

(** The records of a batch are headed by its header lines, in order. *)
Lemma records_fst (lines : list str) :
  map fst (records lines).2 = filter (fun line => is_header line = true) lines.
Proof.
  induction lines as [|line lines IH]; [done|].
  rewrite records_cons, filter_cons. destruct (is_header line) eqn:Hh.
  - rewrite decide_True by done. simpl. by rewrite IH.
  - rewrite decide_False by done. done.
Qed.

Lemma batch_length (msg : str) : length (batch msg) = header_count msg.
Proof.
  unfold batch, header_count. by rewrite <- records_fst, length_map.
Qed.

Lemma record_result_cases (h body : str) (e o : list str) :
  is_header h = true ->
  record_result h body = Returns (e, o) ->
  (validate_input body = false /\ e = [h] /\ o = [])
  \/ (validate_input body = true /\ e = []
      /\ exists m label res,
           h = m :: label /\ (m = ">" \/ m = "<")
           /\ o = [flip_marker m :: " " :: label; res]).
Proof.
  unfold record_result, is_header.
  destruct (validate_input body); cbn [negb];
    [|intros _ [= <- <-]; by left].
  destruct (Py.startswith [">"] h) eqn:Hgt; cbn [orb]; intros Hh.
  - apply startswith_marker in Hgt as [label ->].
    intros [= <- <-]. right. do 2 (split; [done|]).
    exists ">", label, (DNAtoBWT (body ++ ["$"])). auto.
  - rewrite Hh. apply startswith_marker in Hh as [label ->].
    destruct (BWTtoDNA body) as [res| |]; [|done..].
    intros [= <- <-]. right. do 2 (split; [done|]).
    exists "<", label, res. auto.
Qed.

(** Every record of an accepted batch gives one error tag or one
    transformed record. *)
Lemma batch_result_spec (rs : list (str * str)) :
  forall e o,
    Forall (fun r => is_header r.1 = true) rs ->
    batch_result rs = Returns (e, o) ->
    e = map fst (filter (fun r => invalid_record r = true) rs)
    /\ Forall2 flipped (filter (fun r => valid_record r = true) rs) (transformed o)
    /\ length o = 2 * length (transformed o).
Proof.
  induction rs as [|[h body] rs IH]; intros e o Hh Hres.
  - injection Hres as <- <-. by repeat constructor.
  - apply Forall_cons in Hh as [Hh Hhs]. cbn [batch_result fst snd] in Hres.
    destruct (record_result h body) as [[e1 o1]| |] eqn:Hr; [|done..].
    cbn [mbind outcome_bind] in Hres.
    destruct (batch_result rs) as [[e2 o2]| |] eqn:Hrs; [|done..].
    injection Hres as <- <-.
    destruct (IH e2 o2 Hhs eq_refl) as (-> & Hflip & Hlen).
    rewrite !filter_cons.
    destruct (record_result_cases h body e1 o1 Hh Hr)
      as [(Hv & -> & ->)|(Hv & -> & m & label & res & -> & Hm & ->)].
    + rewrite decide_True by (unfold invalid_record; simpl; by rewrite Hv).
      rewrite decide_False by (unfold valid_record; simpl; by rewrite Hv).
      done.
    + rewrite decide_False by (unfold invalid_record; simpl; by rewrite Hv).
      rewrite decide_True by (unfold valid_record; simpl; by rewrite Hv).
      cbn [app transformed length]. split; [done|]. split; [|lia].
      constructor; [|done]. exists m, (flip_marker m), label.
      do 3 (split; [done|]). by destruct Hm as [-> | ->].
Qed.

Lemma valid_invalid_length (rs : list (str * str)) :
  length (filter (fun r => invalid_record r = true) rs)
  + length (filter (fun r => valid_record r = true) rs) = length rs.
Proof.
  induction rs as [|r rs IH]; [done|]. rewrite !filter_cons.
  destruct (validate_input r.2) eqn:Hv.
  - rewrite decide_False by (unfold invalid_record; by rewrite Hv).
    rewrite decide_True by (unfold valid_record; by rewrite Hv). simpl. lia.
  - rewrite decide_True by (unfold invalid_record; by rewrite Hv).
    rewrite decide_False by (unfold valid_record; by rewrite Hv). simpl. lia.
Qed.

Lemma checkAndTranslate_accepted (msg : str) (errs out : list str) :
  checkAndTranslate msg = Returns (Accepted errs out) ->
  rejects msg = false /\ batch_result (batch msg) = Returns (errs, out).
Proof.
  rewrite checkAndTranslate_batch. destruct (rejects msg); [done|].
  destruct (batch_result (batch msg)) as [[e o]| |]; [|done..].
  by intros [= <- <-].
Qed.

Lemma record_result_outcome (h body : str) :
  (exists e o, record_result h body = Returns (e, o))
  \/ (record_result h body = IndexError
      /\ validate_input body = true /\ Py.startswith ["<"] h = true
      /\ "$" ∉ body).
Proof.
  unfold record_result. destruct (validate_input body); cbn [negb]; [|eauto].
  destruct (Py.startswith [">"] h); [eauto|].
  destruct (Py.startswith ["<"] h); [|eauto].
  destruct (decide ("$" ∈ body)) as [Hin|Hnot].
  - destruct (BWTtoDNA_returns body Hin) as (res & -> & _). left. simpl. eauto.
  - right. by rewrite (BWTtoDNA_raises body Hnot).
Qed.

(** The parser returns on a message that passes the guard unless a record
    with a valid body and a [<] header has no [$]; then [BWTtoDNA] raises. *)
Lemma batch_result_returns (rs : list (str * str)) :
  Forall (fun r => validate_input r.2 = true -> Py.startswith ["<"] r.1 = true ->
                   "$" ∈ r.2) rs ->
  exists e o, batch_result rs = Returns (e, o).
Proof.
  induction 1 as [|[h body] rs Hr Hrs (e' & o' & IH)]; [by exists [], []|].
  cbn [batch_result fst snd] in *.
  destruct (record_result_outcome h body)
    as [(e & o & ->)|(_ & Hv & Hlt & Hnot)].
  - rewrite IH. simpl. eauto.
  - by destruct Hnot; apply Hr.
Qed.

Lemma checkAndTranslate_returns (msg : str) :
  rejects msg = false ->
  Forall (fun r => validate_input r.2 = true -> Py.startswith ["<"] r.1 = true ->
                   "$" ∈ r.2) (batch msg) ->
  exists errs out, checkAndTranslate msg = Returns (Accepted errs out).
Proof.
  intros Hrej Hall. rewrite checkAndTranslate_batch, Hrej.
  destruct (batch_result_returns _ Hall) as (e & o & ->). simpl. eauto.
Qed.

(** C6, as the code has it: [checkAndTranslate] returns [False] exactly
    when the message has fewer than two non-empty lines (fewer than three
    lines once the closing header is appended) or its first non-empty line
    starts with neither [>] nor [<]; the reply is then the fixed error
    string. *)
Theorem checkAndTranslate_rejected (msg : str) :
  (checkAndTranslate msg = Returns Rejected <->
     length (nonempty_lines msg) < 2
     \/ is_header (default [] (head (nonempty_lines msg))) = false)
  /\ (checkAndTranslate msg = Returns Rejected ->
      handle_message msg = Returns (input_error ++ end_)).
Proof.
  split.
  - rewrite checkAndTranslate_batch. unfold rejects.
    destruct (Nat.ltb_spec (length (nonempty_lines msg)) 2) as [Hlt|Hge];
      cbn [orb]; [by split; [left|]|].
    destruct (is_header _); cbn [negb].
    + destruct (batch_result (batch msg)) as [[e o]| |];
        (split; [done | intros [?|?]; [lia | done]]).
    + split; [by right | done].
  - intros Hrej. unfold handle_message. by rewrite Hrej.
Qed.

Lemma checkAndTranslate_rejected_witness :
  checkAndTranslate (s_ ">only a header") = Returns Rejected
  /\ handle_message (s_ ">only a header") = Returns (input_error ++ end_).
Proof.
  destruct (checkAndTranslate_rejected (s_ ">only a header")) as [Hiff Hreply].
  assert (checkAndTranslate (s_ ">only a header") = Returns Rejected) as Hrej.
  { apply Hiff. left. vm_compute. lia. }
  split; [exact Hrej | exact (Hreply Hrej)].
Defined.

(** C6, as stated, fails: a header and one line of sequence are two non-empty
    lines, fewer than three, and the message is accepted. *)
Lemma two_lines_accepted :
  length (nonempty_lines (s_ ">a
ACGT")) < 3
  /\ checkAndTranslate (s_ ">a
ACGT") = Returns (Accepted [] [s_ "< a"; s_ "T$ACG"]).
Proof. split; [vm_compute; lia | vm_compute; reflexivity]. Qed.

(** C7: in an accepted message every header line, the last one included,
    gives exactly one outcome: the error tags are the headers of the records
    with an invalid body, in order; the records with a valid body give one
    transformed record each; error tags and transformed records together are
    as many as the header lines. *)
Theorem every_header_one_outcome (msg : str) (errs out : list str) :
  checkAndTranslate msg = Returns (Accepted errs out) ->
  map fst (batch msg)
    = filter (fun line => is_header line = true) (nonempty_lines msg)
  /\ errs = map fst (filter (fun r => invalid_record r = true) (batch msg))
  /\ length (transformed out)
     = length (filter (fun r => valid_record r = true) (batch msg))
  /\ length out = 2 * length (transformed out)
  /\ length errs + length (transformed out) = header_count msg.
Proof.
  intros [_ Hres]%checkAndTranslate_accepted.
  destruct (batch_result_spec (batch msg) errs out (records_headers _) Hres)
    as (-> & Hflip & Hlen).
  apply Forall2_length in Hflip.
  split; [apply records_fst|]. split; [done|]. split; [done|]. split; [done|].
  rewrite length_map, <- Hflip, <- batch_length. apply valid_invalid_length.
Qed.

Lemma every_header_one_outcome_witness :
  map fst (batch (s_ ">a
AC1
>b
acgt"))
    = filter (fun line => is_header line = true) (nonempty_lines (s_ ">a
AC1
>b
acgt"))
  /\ [s_ ">a"] = map fst (filter (fun r => invalid_record r = true) (batch (s_ ">a
AC1
>b
acgt")))
  /\ length (transformed [s_ "< b"; s_ "t$acg"])
     = length (filter (fun r => valid_record r = true) (batch (s_ ">a
AC1
>b
acgt")))
  /\ length [s_ "< b"; s_ "t$acg"] = 2 * length (transformed [s_ "< b"; s_ "t$acg"])
  /\ length [s_ ">a"] + length (transformed [s_ "< b"; s_ "t$acg"])
     = header_count (s_ ">a
AC1
>b
acgt").
Proof.
  apply (every_header_one_outcome _ [s_ ">a"] [s_ "< b"; s_ "t$acg"]).
  vm_compute. reflexivity.
Defined.

(** C8: in an accepted message the transformed records are, in order, those
    of the records with a valid body; each output header has marker [<] iff
    the marker of the input header is [>], and [>] iff it is [<], followed
    by a blank and the label of the input header unchanged. *)
Theorem marker_flip (msg : str) (errs out : list str) :
  checkAndTranslate msg = Returns (Accepted errs out) ->
  Forall2
    (fun r t =>
       exists m m' label,
         r.1 = m :: label /\ t.1 = m' :: " " :: label
         /\ (m = ">" \/ m = "<")
         /\ (m' = "<" <-> m = ">") /\ (m' = ">" <-> m = "<"))
    (filter (fun r => valid_record r = true) (batch msg))
    (transformed out)
  /\ length out = 2 * length (transformed out).
Proof.
  intros [_ Hres]%checkAndTranslate_accepted.
  destruct (batch_result_spec (batch msg) errs out (records_headers _) Hres)
    as (_ & Hflip & Hlen).
  done.
Qed.

Lemma marker_flip_witness :
  Forall2
    (fun r t =>
       exists m m' label,
         r.1 = m :: label /\ t.1 = m' :: " " :: label
         /\ (m = ">" \/ m = "<")
         /\ (m' = "<" <-> m = ">") /\ (m' = ">" <-> m = "<"))
    (filter (fun r => valid_record r = true) (batch (s_ ">seq1
ACGT
<seq2
T$ACG")))
    (transformed [s_ "< seq1"; s_ "T$ACG"; s_ "> seq2"; s_ "ACGT$"])
  /\ length [s_ "< seq1"; s_ "T$ACG"; s_ "> seq2"; s_ "ACGT$"]
     = 2 * length (transformed [s_ "< seq1"; s_ "T$ACG"; s_ "> seq2"; s_ "ACGT$"]).
Proof.
  apply (marker_flip _ []).
  vm_compute. reflexivity.
Defined.

Lemma startswith_app (p s : str) : Py.startswith p (p ++ s) = true.
Proof.
  induction p as [|a p IH]; [done|]. simpl. by rewrite Ascii.eqb_refl.
Qed.

Lemma join_cons (sep x : str) (l : list str) :
  exists rest, Py.join sep (x :: l) = x ++ rest.
Proof.
  destruct l as [|y l].
  - exists []. simpl. by rewrite app_nil_r.
  - by exists (sep ++ Py.join sep (y :: l)).
Qed.

(** The reply starts with the sentinel exactly when there is an error tag. *)
Lemma sentinel_iff_errors (msg : str) (errs out : list str) :
  checkAndTranslate msg = Returns (Accepted errs out) ->
  Py.startswith (s_ "%%%") (output_manager errs out) = true <-> 1 <= length errs.
Proof.
  intros [_ Hres]%checkAndTranslate_accepted.
  destruct (batch_result_spec (batch msg) errs out (records_headers _) Hres)
    as (_ & Hflip & Hlen).
  unfold output_manager. destruct errs as [|h errs]; cbn [length Nat.ltb Nat.leb].
  - split; [|lia]. intros Hstart. exfalso. revert Hstart. rewrite app_nil_l.
    destruct out as [|h [|b rest]]; [done | simpl in Hlen; lia |].
    destruct (join_cons ["010"] h (b :: rest)) as [tl ->].
    cbn [transformed] in Hflip. apply Forall2_cons_inv_r in Hflip
      as (r & rs & (m & m' & label & _ & Ht & Hm & Hlt & Hgt) & _ & _).
    cbn [fst] in Ht. subst h.
    assert (m' = "<" \/ m' = ">") as [-> | ->] by (destruct Hm; tauto); done.
  - split; [lia|]. intros _. rewrite app_nil_l, <- (assoc_L (++)).
    apply startswith_app.
Qed.

(** C5, as the code has it: for a batch of [N] headers that passes the guard
    of [checkAndTranslate], in which every [<] record with a valid body holds
    a [$], and with exactly one record whose body is invalid,
    [checkAndTranslate] returns its two lists and the reply that
    [output_manager] builds from them has exactly one error tag, the header
    of that record, and [N - 1] transformed records of two lines each; the
    reply starts with the sentinel [%%%] exactly when it has at least one
    error tag, and [handle_message] hands its bytes and the termination
    sequence to [sendall]. *)
Theorem one_invalid_record (msg : str) :
  rejects msg = false ->
  Forall (fun r => validate_input r.2 = true -> Py.startswith ["<"] r.1 = true ->
                   "$" ∈ r.2) (batch msg) ->
  length (filter (fun r => invalid_record r = true) (batch msg)) = 1 ->
  exists errs out,
    checkAndTranslate msg = Returns (Accepted errs out)
    /\ (exists h,
          errs = [h]
          /\ [h] = map fst (filter (fun r => invalid_record r = true) (batch msg))
          /\ output_manager errs out
             = s_ "%%%" ++ h ++ ["010"] ++ Py.join ["010"] out)
    /\ length (transformed out) + 1 = header_count msg
    /\ length out = 2 * length (transformed out)
    /\ handle_message msg = Returns (Py.encode (output_manager errs out) ++ end_)
    /\ (Py.startswith (s_ "%%%") (output_manager errs out) = true
        <-> 1 <= length errs).
Proof.
  intros Hrej Hall Hone.
  destruct (checkAndTranslate_returns msg Hrej Hall) as (errs & out & Hacc).
  exists errs, out. split; [done|].
  pose proof (sentinel_iff_errors msg errs out Hacc) as Hsent.
  pose proof Hacc as [_ Hres]%checkAndTranslate_accepted.
  destruct (batch_result_spec (batch msg) errs out (records_headers _) Hres)
    as (Herrs & Hvalid%Forall2_length & Hlen).
  pose proof (valid_invalid_length (batch msg)) as Hcount.
  rewrite batch_length in Hcount.
  assert (length errs = 1) as Hl by (by rewrite Herrs, length_map).
  split; [|split; [lia | split; [lia | split; [|done]]]].
  - rewrite <- Herrs. destruct errs as [|h [|h' errs]]; [done| |done].
    exists h. split; [done|]. split; [done|]. unfold output_manager.
    cbn [length Nat.ltb Nat.leb Py.join]. by rewrite app_nil_l, <- !(assoc_L (++)).
  - unfold handle_message. by rewrite Hacc.
Qed.

Lemma one_invalid_record_witness :
  exists errs out,
    checkAndTranslate (s_ ">a
AC1
<b
T$ACG") = Returns (Accepted errs out)
    /\ (exists h,
          errs = [h]
          /\ [h] = map fst (filter (fun r => invalid_record r = true) (batch (s_ ">a
AC1
<b
T$ACG")))
          /\ output_manager errs out
             = s_ "%%%" ++ h ++ ["010"] ++ Py.join ["010"] out)
    /\ length (transformed out) + 1 = header_count (s_ ">a
AC1
<b
T$ACG")
    /\ length out = 2 * length (transformed out)
    /\ handle_message (s_ ">a
AC1
<b
T$ACG") = Returns (Py.encode (output_manager errs out) ++ end_)
    /\ (Py.startswith (s_ "%%%") (output_manager errs out) = true
        <-> 1 <= length errs).
Proof.
  apply (one_invalid_record (s_ ">a
AC1
<b
T$ACG")).
  - vm_compute. reflexivity.
  - apply (bool_decide_eq_true_1 _). vm_compute. reflexivity.
  - vm_compute. reflexivity.
Defined.

(** C5, as stated, fails.  A lone header is a batch of one header whose only
    record is invalid: the guard rejects it and the reply is the fixed error
    text, with no error tag and no sentinel.  And in a batch of two headers
    with exactly one invalid record, a [<] record with a valid body and no
    [$] makes [BWTtoDNA] raise: no reply is built. *)
Lemma one_invalid_record_no_tag :
  (header_count (s_ ">a") = 1
   /\ length (filter (fun r => invalid_record r = true) (batch (s_ ">a"))) = 1
   /\ checkAndTranslate (s_ ">a") = Returns Rejected
   /\ handle_message (s_ ">a") = Returns (input_error ++ end_)
   /\ Py.startswith (s_ "%%%") input_error = false)
  /\ (header_count (s_ "<a
ACGT
>b
AC1") = 2
      /\ length (filter (fun r => invalid_record r = true) (batch (s_ "<a
ACGT
>b
AC1"))) = 1
      /\ checkAndTranslate (s_ "<a
ACGT
>b
AC1") = IndexError
      /\ handle_message (s_ "<a
ACGT
>b
AC1") = IndexError).
Proof. vm_compute. by repeat split. Qed.

End batch.


(** * Further properties of the transform engine *)

Section engine_more.

Lemma concat_perm (a b : list str) : a ≡ₚ b -> concat a ≡ₚ concat b.
Proof.
  induction 1 as [|x a b _ IH|x y a|a b c _ IH1 _ IH2]; simpl.
  - done.
  - by rewrite IH.
  - by rewrite !(assoc_L (++)), (Permutation_app_comm y x).
  - by rewrite IH1.
Qed.

(** The last character of a row heads the rotated row. *)
Lemma last1_rotate1 (r : str) : Py.last1 r = take 1 (rotate1 r).
Proof.
  destruct r as [|c r]; [done|].
  rewrite <- (app_nil_r (Py.last1 (c :: r))).
  change [] with (take 0 (c :: r)). apply prepend_last. simpl. lia.
Qed.

(** The first characters of rotation 1, ..., [k] are the last [k] characters
    of the word. *)
Lemma first_column_rotations (k : nat) (w : str) :
  k <= length w ->
  concat (map (take 1) (rotations k w)) ≡ₚ drop (length w - k) w.
Proof.
  induction k as [|k IH]; intros Hk.
  - rewrite Nat.sub_0_r, drop_all. done.
  - rewrite rotations_snoc, map_app, concat_app, IH by lia.
    cbn [map concat]. rewrite app_nil_r, rotation_slices by done.
    rewrite take_app_le by (rewrite length_drop; lia).
    rewrite Permutation_app_comm.
    rewrite <- (take_drop 1 (drop (length w - S k) w)) at 2.
    rewrite drop_drop. do 2 f_equiv. lia.
Qed.

Lemma last_column_rotations (w : str) :
  concat (map Py.last1 (rotations (length w) w)) ≡ₚ w.
Proof.
  rewrite (map_ext _ _ last1_rotate1), <- map_map.
  rewrite (concat_perm _ (map (take 1) (rotations (length w) w))).
  - rewrite first_column_rotations by done. by rewrite Nat.sub_diag.
  - apply (fmap_Permutation (take 1)), rotations_closed.
Qed.

Lemma DNAtoBWT_perm (word : str) : DNAtoBWT word ≡ₚ word.
Proof.
  unfold DNAtoBWT. rewrite join_nil.
  trans (concat (map Py.last1 (rotations (length word) word))).
  - apply concat_perm, (fmap_Permutation Py.last1), np_sort_perm.
  - apply last_column_rotations.
Qed.

(** X1: the forward transform rearranges the characters of its input,
    whatever the word: the result is a permutation of the word, so it has the
    same length and every character occurs in it as often as in the word. *)
Theorem DNAtoBWT_permutation (word : str) :
  DNAtoBWT word ≡ₚ word
  /\ length (DNAtoBWT word) = length word
  /\ forall c, Py.count c (DNAtoBWT word) = Py.count c word.
Proof.
  pose proof (DNAtoBWT_perm word) as Hp.
  split; [done|]. split; [by rewrite Hp|].
  intros c. unfold Py.count. by rewrite Hp.
Qed.

(** X2: the forward transform loses nothing: two sequences without [$] with
    the same transform are the same sequence. *)
Theorem DNAtoBWT_injective (a b : str) :
  "$" ∉ a -> "$" ∉ b ->
  DNAtoBWT (a ++ ["$"]) = DNAtoBWT (b ++ ["$"]) -> a = b.
Proof.
  intros Ha Hb E. apply (f_equal BWTtoDNA) in E.
  rewrite !round_trip_no_dollar in E by done.
  injection E as E. by apply app_inv_tail in E.
Qed.

Lemma DNAtoBWT_injective_witness : s_ "acgt" = s_ "acgt".
Proof.
  apply (DNAtoBWT_injective (s_ "acgt") (s_ "acgt")).
  - apply (bool_decide_eq_true_1 _). vm_compute. reflexivity.
  - apply (bool_decide_eq_true_1 _). vm_compute. reflexivity.
  - reflexivity.
Defined.

Lemma zip_with_app_Forall (P : str -> Prop) (word rows : list str) :
  (forall a b, P a -> P b -> P (a ++ b)) ->
  Forall P word -> Forall P rows -> Forall P (zip_with app word rows).
Proof.
  intros Happ Hw. revert rows.
  induction Hw as [|c word Hc Hw IH]; intros rows Hr; [constructor|].
  destruct Hr as [|r rows Hr Hrs]; [constructor|].
  simpl. constructor; [by apply Happ | by apply IH].
Qed.

(** What holds of the single characters and is kept by concatenation holds of
    every row the loop builds. *)
Lemma iter_loop_body_Forall (P : str -> Prop) (d : nat) (word rows : list str) :
  (forall a b, P a -> P b -> P (a ++ b)) ->
  Forall P word -> Forall P rows ->
  Forall P (Nat.iter d (loop_body word) rows).
Proof.
  intros Happ Hw Hr. induction d as [|d IH]; [done|].
  simpl. unfold loop_body at 1. rewrite np_sort_perm.
  by apply zip_with_app_Forall.
Qed.

(** X3: [BWTtoDNA] returns exactly when its input holds a [$]: the result is
    then a row as long as the input, made of characters of the input and
    ending in [$].  Without a [$], the empty input included, it raises
    [IndexError].  The loop never needs more than [len(word)] rounds. *)
Theorem BWTtoDNA_outcome (word : str) :
  match BWTtoDNA word with
  | Returns res =>
      "$" ∈ word /\ length res = length word /\ last res = Some "$"
      /\ res ⊆ word
  | IndexError => "$" ∉ word
  | OutOfFuel => False
  end.
Proof.
  destruct (decide ("$" ∈ word)) as [Hin|Hnot];
    [|by rewrite (BWTtoDNA_raises word Hnot)].
  assert (word <> []) as Hne by (by intros ->; apply elem_of_nil in Hin).
  assert (0 < length word) as Hpos by (destruct word; [done | simpl; lia]).
  pose proof (loop_fuel_enough (length word) word Hne) as Hloop.
  pose proof (final_rows_last word Hne) as Hfinal.
  pose proof (iter_loop_body_rows (map (fun c => [c]) word)
                (np_sort (map (fun c => [c]) word)) 1 (length word - 1))
    as Hrows.
  pose proof (iter_loop_body_Forall (fun r => r ⊆ word) (length word - 1)
                (map (fun c => [c]) word) (np_sort (map (fun c => [c]) word)))
    as Hsub.
  unfold BWTtoDNA, BWTtoDNA_fuel. rewrite Hloop by lia. run_bind.
  set (rows := Nat.iter _ _ _) in *.
  assert (Forall (fun r => r ⊆ word) (map (fun c => [c]) word)) as Hsingle.
  { apply Forall_fmap, Forall_forall. intros c Hc a Ha.
    apply list_elem_of_singleton in Ha. by subst. }
  destruct (filter _ rows) as [|res rest] eqn:E.
  - destruct (filter_dollar_cons rows) as (res & rest & E' & _); [|congruence].
    rewrite Hfinal. by apply (list_elem_of_fmap_2 Some).
  - assert (res ∈ filter (fun perm => ends_with_dollar perm = true) rows) as Hres
      by (rewrite E; left).
    apply list_elem_of_filter in Hres as [Hend Hres].
    split; [done|]. split; [|split].
    + replace (length word - 1 + 1) with (length word) in Hrows by lia.
      assert (rows_of_length (length word) rows) as Hr.
      { apply Hrows; [apply singletons_rows|].
        unfold rows_of_length. rewrite np_sort_perm. apply singletons_rows. }
      unfold rows_of_length in Hr. rewrite Forall_forall in Hr. auto.
    + by apply ends_with_dollar_last.
    + assert (Forall (fun r => r ⊆ word) rows) as Hr.
      { apply Hsub; [|done|by rewrite np_sort_perm].
        intros a b Ha Hb c [Hc|Hc]%elem_of_app; auto. }
      rewrite Forall_forall in Hr. auto.
Qed.

End engine_more.

(** * Further properties of the validator *)

Section validator_more.

Lemma upper_dollar (c : ascii) : Py.upper c = "$" <-> c = "$".
Proof.
  destruct c as [[] [] [] [] [] [] [] []]; vm_compute; split; congruence.
Qed.

Lemma upper_idemp (c : ascii) : Py.upper (Py.upper c) = Py.upper c.
Proof. destruct c as [[] [] [] [] [] [] [] []]; vm_compute; reflexivity. Qed.

Lemma filter_dollar_upper (body : str) :
  filter (fun c => c <> "$") (map Py.upper body)
  = map Py.upper (filter (fun c => c <> "$") body).
Proof.
  induction body as [|c body IH]; [done|]. cbn [map]. rewrite !filter_cons.
  destruct (decide (c = "$")) as [->|Hne].
  - rewrite decide_False by (intros H; apply H; by vm_compute).
    rewrite decide_False by (intros H; by apply H). done.
  - rewrite decide_True by (by rewrite upper_dollar).
    rewrite decide_True by done. cbn [map]. by rewrite IH.
Qed.

Lemma forallb_fmap {A B} (f : B -> bool) (g : A -> B) (l : list A) :
  forallb f (map g l) = forallb (fun x => f (g x)) l.
Proof. induction l as [|x l IH]; [done|]. simpl. by rewrite IH. Qed.

(** X4: on a body of ASCII characters, where [body.upper()] is
    [map Py.upper body], validation does not depend on the case of the
    letters: the upper-cased body is valid exactly when the body is. *)
Theorem validate_input_upper (body : str) :
  ascii_text body ->
  validate_input (map Py.upper body) = validate_input body.
Proof.
  intros _. unfold validate_input. rewrite !replace_char, filter_dollar_upper.
  rewrite length_map, forallb_fmap.
  assert (forallb (fun x => in_validDNA (Py.upper (Py.upper x)))
            (filter (fun c => c <> "$") body)
          = forallb (fun nucl => in_validDNA (Py.upper nucl))
              (filter (fun c => c <> "$") body)) as ->; [|done].
  induction (filter (fun c => c <> "$") body) as [|c l IH]; [done|].
  simpl. by rewrite upper_idemp, IH.
Qed.

Lemma validate_input_upper_witness :
  validate_input (map Py.upper (s_ "acgT-n$")) = validate_input (s_ "acgT-n$").
Proof.
  apply (validate_input_upper (s_ "acgT-n$")).
  apply (bool_decide_eq_true_1 _). vm_compute. reflexivity.
Defined.

Lemma forallb_perm {A} (f : A -> bool) (a b : list A) :
  a ≡ₚ b -> forallb f a = forallb f b.
Proof.
  induction 1 as [|x a b _ IH|x y a|a b c _ IH1 _ IH2]; simpl.
  - done.
  - by rewrite IH.
  - by destruct (f x), (f y).
  - by rewrite IH1.
Qed.

(** The order of the characters of a body does not matter to validation. *)
Lemma validate_input_perm (a b : str) :
  a ≡ₚ b -> validate_input a = validate_input b.
Proof.
  intros Hp. unfold validate_input. rewrite !replace_char.
  assert (filter (fun c => c <> "$") a ≡ₚ filter (fun c => c <> "$") b) as Hf
    by (by rewrite Hp).
  by rewrite (forallb_perm _ _ _ Hf), (Permutation_length Hf).
Qed.

Lemma validate_input_snoc_dollar (body : str) :
  validate_input (body ++ ["$"]) = validate_input body.
Proof.
  unfold validate_input. rewrite !replace_char, filter_app.
  rewrite (filter_singleton_False _ "$" []) by (intros H; by apply H).
  by rewrite app_nil_r.
Qed.

(** X5: the forward transform of a body passes validation exactly when the
    body does, so the output of a [>] record can be sent back as the body of
    a [<] record. *)
Theorem validate_input_DNAtoBWT (body : str) :
  validate_input (DNAtoBWT (body ++ ["$"])) = validate_input body.
Proof.
  rewrite (validate_input_perm _ _ (DNAtoBWT_perm (body ++ ["$"]))).
  apply validate_input_snoc_dollar.
Qed.

End validator_more.

(** * Further properties of the batch parser *)

Section parser_more.

Lemma startswith_markers_disjoint (h : str) :
  Py.startswith ["<"] h = true -> Py.startswith [">"] h = false.
Proof.
  intros [label ->]%startswith_marker.
  destruct (Py.startswith [">"] ("<" :: label)) eqn:E; [|done].
  by apply startswith_marker in E as [? [=]].
Qed.

(** The body line that a record with a valid body puts into [out]. *)
Lemma record_result_body (h body : str) (e o : list str) :
  validate_input body = true ->
  is_header h = true ->
  record_result h body = Returns (e, o) ->
  exists hd res,
    e = [] /\ o = [hd; res]
    /\ (Py.startswith [">"] h = true -> res = DNAtoBWT (body ++ ["$"]))
    /\ (Py.startswith ["<"] h = true -> BWTtoDNA body = Returns res).
Proof.
  unfold record_result, is_header. intros -> Hh. cbn [negb].
  destruct (Py.startswith [">"] h) eqn:Hgt.
  - intros [= <- <-]. eexists _, _. do 3 (split; [done|]).
    intros Hlt%startswith_markers_disjoint. congruence.
  - cbn [orb] in Hh. rewrite Hh.
    destruct (BWTtoDNA body) as [res| |]; [|done..].
    intros [= <- <-]. eexists _, _. by do 3 (split; [done|]).
Qed.

Lemma batch_result_bodies (rs : list (str * str)) :
  forall e o,
    Forall (fun r => is_header r.1 = true) rs ->
    batch_result rs = Returns (e, o) ->
    Forall2
      (fun r t =>
         (Py.startswith [">"] r.1 = true -> t.2 = DNAtoBWT (r.2 ++ ["$"]))
         /\ (Py.startswith ["<"] r.1 = true -> BWTtoDNA r.2 = Returns t.2))
      (filter (fun r => valid_record r = true) rs) (transformed o).
Proof.
  induction rs as [|[h body] rs IH]; intros e o Hh Hres.
  - injection Hres as <- <-. constructor.
  - apply Forall_cons in Hh as [Hh Hhs]. cbn [batch_result fst snd] in Hres.
    destruct (record_result h body) as [[e1 o1]| |] eqn:Hr; [|done..].
    run_bind. cbn [mbind outcome_bind] in Hres.
    destruct (batch_result rs) as [[e2 o2]| |] eqn:Hrs; [|done..].
    injection Hres as <- <-. specialize (IH e2 o2 Hhs eq_refl).
    rewrite filter_cons. destruct (validate_input body) eqn:Hv.
    + rewrite decide_True by (unfold valid_record; simpl; by rewrite Hv).
      destruct (record_result_body h body e1 o1 Hv Hh Hr)
        as (hd & res & -> & -> & Hgt & Hlt).
      cbn [app transformed]. by constructor.
    + rewrite decide_False by (unfold valid_record; simpl; by rewrite Hv).
      destruct (record_result_cases h body e1 o1 Hh Hr)
        as [(_ & -> & ->)|(Hv' & _)]; [done | congruence].
Qed.

(** X6: in an accepted message the body line of each transformed record is
    the forward transform of the body with [$] appended when the input header
    starts with [>], and the row [BWTtoDNA] returns for the body when it
    starts with [<]; the records are taken in the order of the message. *)
Theorem transformed_bodies (msg : str) (errs out : list str) :
  checkAndTranslate msg = Returns (Accepted errs out) ->
  Forall2
    (fun r t =>
       (Py.startswith [">"] r.1 = true -> t.2 = DNAtoBWT (r.2 ++ ["$"]))
       /\ (Py.startswith ["<"] r.1 = true -> BWTtoDNA r.2 = Returns t.2))
    (filter (fun r => valid_record r = true) (batch msg)) (transformed out).
Proof.
  intros [_ Hres]%checkAndTranslate_accepted.
  exact (batch_result_bodies (batch msg) errs out (records_headers _) Hres).
Qed.

Lemma transformed_bodies_witness :
  Forall2
    (fun r t =>
       (Py.startswith [">"] r.1 = true -> t.2 = DNAtoBWT (r.2 ++ ["$"]))
       /\ (Py.startswith ["<"] r.1 = true -> BWTtoDNA r.2 = Returns t.2))
    (filter (fun r => valid_record r = true) (batch (s_ ">seq1
ACGT
<seq2
T$ACG")))
    (transformed [s_ "< seq1"; s_ "T$ACG"; s_ "> seq2"; s_ "ACGT$"]).
Proof.
  apply (transformed_bodies _ []).
  vm_compute. reflexivity.
Defined.

Lemma record_result_lacks_dollar (h body : str) :
  lacks_dollar (h, body) -> record_result h body = IndexError.
Proof.
  intros (Hv & Hlt & Hnot). cbn [fst snd] in *. unfold record_result.
  rewrite Hv, (startswith_markers_disjoint h Hlt), Hlt. cbn [negb].
  by rewrite (BWTtoDNA_raises body Hnot).
Qed.

Lemma batch_result_outcome (rs : list (str * str)) :
  match batch_result rs with
  | Returns _ => Forall (fun r => ~ lacks_dollar r) rs
  | IndexError => Exists lacks_dollar rs
  | OutOfFuel => False
  end.
Proof.
  induction rs as [|[h body] rs IH]; [constructor|].
  cbn [batch_result fst snd].
  destruct (record_result_outcome h body)
    as [(e & o & Hr)|(Hr & Hv & Hlt & Hnot)]; rewrite Hr; run_bind.
  - assert (~ lacks_dollar (h, body)) as Hok.
    { intros Hbad%record_result_lacks_dollar. congruence. }
    destruct (batch_result rs) as [[e' o']| |]; run_bind;
      [by constructor | by apply Exists_cons_tl | done].
  - by apply Exists_cons_hd.
Qed.

(** X7: [checkAndTranslate] has three outcomes: it returns [False] when the
    guard rejects the message; it raises [IndexError] when the message passes
    the guard and some record has a [<] header and a body that passes
    validation but holds no [$]; otherwise it returns the two lists. *)
Theorem checkAndTranslate_outcome (msg : str) :
  match checkAndTranslate msg with
  | Returns Rejected => rejects msg = true
  | Returns (Accepted _ _) =>
      rejects msg = false
      /\ Forall (fun r => ~ (validate_input r.2 = true
                             /\ Py.startswith ["<"] r.1 = true /\ "$" ∉ r.2))
           (batch msg)
  | IndexError =>
      rejects msg = false
      /\ Exists (fun r => validate_input r.2 = true
                          /\ Py.startswith ["<"] r.1 = true /\ "$" ∉ r.2)
           (batch msg)
  | OutOfFuel => False
  end.
Proof.
  rewrite checkAndTranslate_batch. destruct (rejects msg); [done|].
  pose proof (batch_result_outcome (batch msg)) as H.
  destruct (batch_result (batch msg)) as [[e o]| |]; run_bind; done.
Qed.

End parser_more.

(** * A record sent to the server and its answer sent back *)

Section server_round_trip.

Lemma split_from_no_sep (sep : ascii) (cur s : str) :
  sep ∉ s -> Py.split_from sep cur s = [cur ++ s].
Proof.
  revert cur. induction s as [|c s IH]; intros cur Hs; simpl.
  - by rewrite app_nil_r.
  - apply not_elem_of_cons in Hs as [Hne Hs].
    destruct (Ascii.eqb_spec c sep); [congruence|].
    rewrite IH by done. by rewrite <- (assoc_L (++)).
Qed.

Lemma split_from_sep (sep : ascii) (cur a b : str) :
  sep ∉ a ->
  Py.split_from sep cur (a ++ sep :: b) = (cur ++ a) :: Py.split_from sep [] b.
Proof.
  revert cur. induction a as [|c a IH]; intros cur Ha; simpl.
  - by rewrite Ascii.eqb_refl, app_nil_r.
  - apply not_elem_of_cons in Ha as [Hne Ha].
    destruct (Ascii.eqb_spec c sep); [congruence|].
    rewrite IH by done. by rewrite <- (assoc_L (++)).
Qed.

Lemma nonempty_lines_two (h body : str) :
  h <> [] -> body <> [] -> "010" ∉ h -> "010" ∉ body ->
  nonempty_lines (h ++ "010" :: body) = [h; body].
Proof.
  intros Hh Hb Hnh Hnb. unfold nonempty_lines, Py.split.
  rewrite split_from_sep, split_from_no_sep by done. simpl app.
  rewrite filter_cons_True by done. by rewrite filter_cons_True by done.
Qed.

(** The characters of a body that passes validation. *)
Lemma validate_input_chars (body : str) :
  validate_input body = true ->
  body <> [] /\ forall c, c ∈ body -> c = "$" \/ in_validDNA (Py.upper c) = true.
Proof.
  unfold validate_input. rewrite replace_char.
  destruct (Nat.eqb_spec (length (filter (fun c => c <> "$") body)) 0) as [E|E];
    [done|]. cbn [orb].
  destruct (forallb _ _) eqn:Hall; [|done]. intros _. split.
  - intros ->. by apply E.
  - intros c Hc. destruct (decide (c = "$")) as [|Hne]; [by left | right].
    rewrite forallb_forall in Hall. apply Hall, list_elem_of_In.
    by apply list_elem_of_filter.
Qed.

Lemma validate_input_no_newline (body : str) :
  validate_input body = true -> "010" ∉ body.
Proof.
  intros [_ Hchars]%validate_input_chars Hin.
  by destruct (Hchars _ Hin) as [?|?].
Qed.

Lemma validate_input_not_header (body : str) :
  validate_input body = true -> is_header body = false.
Proof.
  intros [Hne Hchars]%validate_input_chars.
  destruct (is_header body) eqn:Hh; [|done]. unfold is_header in Hh.
  apply orb_true_iff in Hh as [[l ->]%startswith_marker|[l ->]%startswith_marker];
    (destruct (Hchars _ (list_elem_of_here _ _)) as [?|?]; done).
Qed.

(** A message of one header line and one body line. *)
Lemma checkAndTranslate_one_record (h body : str) :
  is_header h = true -> "010" ∉ h -> validate_input body = true ->
  checkAndTranslate (h ++ "010" :: body)
  = '(e, o) ← record_result h body; mret (Accepted e o).
Proof.
  intros Hh Hnh Hv.
  assert (h <> []) as Hne by (by intros ->).
  pose proof (validate_input_chars body Hv) as [Hb _].
  pose proof (validate_input_no_newline body Hv) as Hnb.
  pose proof (validate_input_not_header body Hv) as Hbh.
  rewrite checkAndTranslate_batch. unfold rejects, batch.
  rewrite (nonempty_lines_two h body) by done.
  change (default [] (head [h; body])) with h.
  change (Nat.ltb (length [h; body]) 2) with false. rewrite Hh. cbn [negb orb].
  rewrite !records_cons, Hh, Hbh. cbn [records fst snd batch_result].
  rewrite app_nil_r.
  destruct (record_result h body) as [[e o]| |]; run_bind; [|done..].
  by rewrite !app_nil_r.
Qed.

(** X8: a [>] record with a valid body without [$] is answered by a [<]
    record; that answer, sent as a message of its own, is answered by the
    original sequence with [$] appended.  Each pass puts one more blank in
    front of the label. *)
Theorem server_round_trip (label seq : str) :
  "010" ∉ label -> "$" ∉ seq -> validate_input seq = true ->
  checkAndTranslate (">" :: label ++ "010" :: seq)
  = Returns (Accepted [] ["<" :: " " :: label; DNAtoBWT (seq ++ ["$"])])
  /\ checkAndTranslate
       ("<" :: " " :: label ++ "010" :: DNAtoBWT (seq ++ ["$"]))
     = Returns (Accepted [] [">" :: " " :: " " :: label; seq ++ ["$"]]).
Proof.
  intros Hlabel Hseq Hv. split.
  - change (">" :: label ++ "010" :: seq)
      with ((">" :: label) ++ "010" :: seq).
    rewrite (checkAndTranslate_one_record (">" :: label) seq); [|done| |done].
    + unfold record_result. by rewrite Hv.
    + by intros [?|?]%elem_of_cons.
  - assert (validate_input (DNAtoBWT (seq ++ ["$"])) = true) as Hv'.
    { by rewrite (validate_input_perm _ _ (DNAtoBWT_perm (seq ++ ["$"]))),
        validate_input_snoc_dollar. }
    change ("<" :: " " :: label ++ "010" :: DNAtoBWT (seq ++ ["$"]))
      with (("<" :: " " :: label) ++ "010" :: DNAtoBWT (seq ++ ["$"])).
    rewrite (checkAndTranslate_one_record ("<" :: " " :: label)
               (DNAtoBWT (seq ++ ["$"]))); [|done| |done].
    + unfold record_result. rewrite Hv'. cbn [negb].
      change (Py.startswith [">"] ("<" :: " " :: label)) with false.
      change (Py.startswith ["<"] ("<" :: " " :: label)) with true. cbn iota.
      by rewrite round_trip_no_dollar.
    + intros [?|[?|?]%elem_of_cons]%elem_of_cons; done.
Qed.

Lemma server_round_trip_witness :
  checkAndTranslate (">" :: s_ "seq1" ++ "010" :: s_ "GATTACA")
  = Returns (Accepted [] ["<" :: " " :: s_ "seq1";
                           DNAtoBWT (s_ "GATTACA" ++ ["$"])])
  /\ checkAndTranslate
       ("<" :: " " :: s_ "seq1" ++ "010" :: DNAtoBWT (s_ "GATTACA" ++ ["$"]))
     = Returns (Accepted [] [">" :: " " :: " " :: s_ "seq1";
                              s_ "GATTACA" ++ ["$"]]).
Proof.
  apply (server_round_trip (s_ "seq1") (s_ "GATTACA")).
  - apply (bool_decide_eq_true_1 _). vm_compute. reflexivity.
  - apply (bool_decide_eq_true_1 _). vm_compute. reflexivity.
  - vm_compute. reflexivity.
Defined.

End server_round_trip.

(** * Further properties of the framing *)

Section framing_more.

Lemma startswith_app_l (p q r : str) :
  Py.startswith p q = true -> Py.startswith p (q ++ r) = true.
Proof.
  revert q. induction p as [|a p IH]; intros q; [done|].
  destruct q as [|b q]; [done|]. simpl.
  intros [-> Hp]%andb_true_iff. by rewrite IH.
Qed.

Lemma contains_app_l (old q r : str) :
  Py.contains old q = true -> Py.contains old (q ++ r) = true.
Proof.
  induction q as [|b q IH].
  - simpl. rewrite orb_false_r. intros H. destruct old; [|done].
    by destruct r.
  - rewrite <- app_comm_cons, !contains_cons.
    intros [H|H]%orb_true_iff; apply orb_true_iff.
    + left. by apply (startswith_app_l old (b :: q) r).
    + right. by apply IH.
Qed.

(** After a text without the termination sequence, the sequence is complete
    only at the very end of the stream. *)
Lemma prefix_terminated (p q r : str) :
  end_free p -> q ++ r = p ++ end_ -> Py.contains end_ q = true -> r = [].
Proof.
  unfold end_free. revert q. induction p as [|c p IH]; intros q Hfree E Hq.
  - destruct q as [|a [|b [|? ?]]]; try done.
    + by rewrite contains_cons, startswith_end_short in Hq.
    + by injection E.
  - destruct q as [|a q]; [done|].
    rewrite <- !app_comm_cons in E. injection E as -> E.
    rewrite contains_cons in Hfree, Hq.
    apply orb_false_iff in Hfree as [Hhead Hfree].
    apply orb_true_iff in Hq as [Hq|Hq]; [|by apply (IH q)].
    exfalso. destruct q as [|b q]; [by rewrite startswith_end_short in Hq|].
    rewrite startswith_end_cons in Hq.
    destruct p as [|d p].
    + injection E as -> _. by rewrite andb_false_r in Hq.
    + rewrite <- !app_comm_cons in E. injection E as -> _.
      rewrite startswith_end_cons in Hhead. congruence.
Qed.

Lemma contains_end_suffix (p : str) : Py.contains end_ (p ++ end_) = true.
Proof.
  induction p as [|c p IH]; [done|].
  rewrite <- app_comm_cons, contains_cons, IH. apply orb_true_r.
Qed.

Lemma recv_loop_stream (p : str) (chunks : list str) :
  forall msg,
    end_free p ->
    Py.contains end_ msg = false ->
    msg ++ concat chunks = p ++ end_ ->
    recv_loop chunks msg = Some (p ++ end_).
Proof.
  induction chunks as [|chunk chunks IH]; intros msg Hp Hmsg E.
  - simpl in E. rewrite app_nil_r in E. subst msg.
    by rewrite contains_end_suffix in Hmsg.
  - cbn [recv_loop concat] in *. rewrite (assoc_L (++)) in E.
    destruct (Py.contains end_ (msg ++ chunk)) eqn:Hc.
    + pose proof (prefix_terminated p _ _ Hp E Hc) as Hnil.
      rewrite Hnil, app_nil_r in E. by rewrite E.
    + by apply IH.
Qed.

Lemma recv_message_stream (chunks : list str) (content : str) :
  end_free content ->
  concat chunks = Py.encode content ++ end_ ->
  recv_message chunks = Some (Text content).
Proof.
  intros Hfree E. unfold recv_message.
  rewrite (recv_loop_stream (Py.encode content) chunks [])
    by (done || by apply encode_end_free).
  cbn [mbind option_bind]. rewrite decode_encode_app.
  change (Py.decode end_) with (Some end_). cbn [fmap option_fmap option_map].
  change (content ++ end_) with (content ++ end_ ++ []).
  rewrite remove_end_skip by done. by rewrite app_nil_r.
Qed.

(** X9: however the stream is cut into chunks, when the bytes sent are the
    encoding of a text without [/0] followed by [/0], the receiving side
    gets exactly that text, and the server answers it as [handle_message]
    does. *)
Theorem receive_any_chunking (chunks : list str) (content : str) :
  end_free content ->
  concat chunks = Py.encode content ++ end_ ->
  recv_message chunks = Some (Text content)
  /\ client_connect_recv chunks = Some (Text content)
  /\ handle_client chunks = Some (Text (handle_message content)).
Proof.
  intros Hfree E.
  pose proof (recv_message_stream chunks content Hfree E) as Hrecv.
  unfold client_connect_recv, handle_client. by rewrite Hrecv.
Qed.

Lemma receive_any_chunking_witness :
  recv_message [s_ ">a"; ["195"]; "169" :: s_ "
AC"; s_ "GT/"; s_ "0"] = Some (Text (s_ ">a" ++ "233" :: s_ "
ACGT"))
  /\ client_connect_recv [s_ ">a"; ["195"]; "169" :: s_ "
AC"; s_ "GT/"; s_ "0"] = Some (Text (s_ ">a" ++ "233" :: s_ "
ACGT"))
  /\ handle_client [s_ ">a"; ["195"]; "169" :: s_ "
AC"; s_ "GT/"; s_ "0"] = Some (Text (handle_message (s_ ">a" ++ "233" :: s_ "
ACGT"))).
Proof.
  apply (receive_any_chunking [s_ ">a"; ["195"]; "169" :: s_ "
AC"; s_ "GT/"; s_ "0"] (s_ ">a" ++ "233" :: s_ "
ACGT")).
  - vm_compute. reflexivity.
  - vm_compute. reflexivity.
Defined.

Lemma recv_loop_none (chunks : list str) :
  forall msg,
    Py.contains end_ msg = false ->
    recv_loop chunks msg = None <-> Py.contains end_ (msg ++ concat chunks) = false.
Proof.
  induction chunks as [|chunk chunks IH]; intros msg Hmsg.
  - simpl. by rewrite app_nil_r.
  - cbn [recv_loop concat]. rewrite (assoc_L (++)).
    destruct (Py.contains end_ (msg ++ chunk)) eqn:Hc.
    + rewrite (contains_app_l _ _ _ Hc). done.
    + by apply IH.
Qed.

(** X10: the receive loop never leaves when the termination sequence never
    comes: no text is handed on, and the server sends no answer, exactly when
    the bytes of all the chunks together hold no [/0]. *)
Theorem receive_without_end (chunks : list str) :
  (recv_loop chunks [] = None <-> Py.contains end_ (concat chunks) = false)
  /\ (recv_message chunks = None <-> Py.contains end_ (concat chunks) = false)
  /\ (handle_client chunks = None <-> Py.contains end_ (concat chunks) = false).
Proof.
  pose proof (recv_loop_none chunks [] eq_refl) as H. simpl in H.
  split; [done|]. unfold handle_client, recv_message.
  destruct (recv_loop chunks []) as [buf|]; simpl.
  - split; (split; [done | intros Hc; by apply H in Hc]).
  - split; (split; [intros _; by apply H | done]).
Qed.

(** X11: one exchange reads one message: once a chunk has completed the
    termination sequence, the chunks that follow are not read. *)
Theorem receive_ignores_rest (chunks more : list str) (buf : str) :
  recv_loop chunks [] = Some buf ->
  recv_loop (chunks ++ more) [] = Some buf
  /\ handle_client (chunks ++ more) = handle_client chunks.
Proof.
  assert (forall msg, recv_loop chunks msg = Some buf ->
                      recv_loop (chunks ++ more) msg = Some buf) as Hgen.
  { induction chunks as [|chunk chunks IH]; intros msg; [done|].
    cbn [app recv_loop]. destruct (Py.contains end_ (msg ++ chunk)); [done|].
    apply IH. }
  intros Hloop. pose proof (Hgen [] Hloop) as Hloop'. split; [done|].
  unfold handle_client, recv_message. by rewrite Hloop, Hloop'.
Qed.

Lemma receive_ignores_rest_witness :
  recv_loop ([s_ ">a"; s_ "/0"] ++ [s_ ">b/0"]) [] = Some (s_ ">a/0")
  /\ handle_client ([s_ ">a"; s_ "/0"] ++ [s_ ">b/0"])
     = handle_client [s_ ">a"; s_ "/0"].
Proof.
  apply (receive_ignores_rest [s_ ">a"; s_ "/0"] [s_ ">b/0"] (s_ ">a/0")).
  vm_compute. reflexivity.
Defined.

End framing_more.

(** * The client's printers on the replies of the server *)

Section client.

Example verbose1_one_bad :
  verbose1 (s_ "%%%>a
< b
t$acg") (s_ "output.txt")
  = Effects (Some (s_ "< b
t$acg")) (Some (s_ "output.txt created with 1 out of 2 total inputs.")) Normal.
Proof. vm_compute. reflexivity. Qed.

Lemma split_max_from_no_sep (sep : ascii) (m : nat) (cur s : str) :
  sep ∉ s -> Py.split_max_from sep m cur s = [cur ++ s].
Proof.
  revert cur. induction s as [|c s IH]; intros cur Hs.
  - simpl. by rewrite app_nil_r.
  - apply not_elem_of_cons in Hs as [Hne Hs]. cbn [Py.split_max_from].
    destruct m as [|m]; [done|].
    destruct (Ascii.eqb_spec c sep); [congruence|].
    rewrite IH by done. by rewrite <- (assoc_L (++)).
Qed.

Lemma split_max_from_sep (sep : ascii) (cur a b : str) :
  sep ∉ a ->
  Py.split_max_from sep 1 cur (a ++ sep :: b) = [cur ++ a; b].
Proof.
  revert cur. induction a as [|c a IH]; intros cur Ha.
  - cbn [app Py.split_max_from]. rewrite Ascii.eqb_refl, app_nil_r.
    by destruct b.
  - apply not_elem_of_cons in Ha as [Hne Ha].
    rewrite <- app_comm_cons. cbn [Py.split_max_from].
    destruct (Ascii.eqb_spec c sep); [congruence|].
    rewrite IH by done. by rewrite <- (assoc_L (++)).
Qed.

Lemma join_no_char (c : ascii) (sep : str) (l : list str) :
  c ∉ sep -> Forall (fun x => c ∉ x) l -> c ∉ Py.join sep l.
Proof.
  intros Hsep. induction 1 as [|x l Hx Hl IH]; [apply not_elem_of_nil|].
  destruct l as [|y l]; [done|].
  change (Py.join sep (x :: y :: l)) with (x ++ sep ++ Py.join sep (y :: l)).
  rewrite !not_elem_of_app. auto.
Qed.

(** The header lines of a batch hold no newline. *)
Lemma batch_headers_no_newline (msg : str) :
  Forall (fun r => "010" ∉ r.1) (batch msg).
Proof.
  apply Forall_forall. intros r Hr.
  assert (r.1 ∈ map fst (batch msg)) as Hin
    by (by apply (list_elem_of_fmap_2 fst)).
  unfold batch in Hin. rewrite records_fst in Hin.
  apply list_elem_of_filter in Hin as [_ Hin].
  apply list_elem_of_filter in Hin as [_ Hin].
  pose proof (split_from_fields "010" [] msg (not_elem_of_nil _)) as Hall.
  rewrite Forall_forall in Hall. by apply Hall.
Qed.

Lemma accepted_errs_no_newline (msg : str) (errs out : list str) :
  checkAndTranslate msg = Returns (Accepted errs out) ->
  Forall (fun h => "010" ∉ h) errs.
Proof.
  intros [_ Hres]%checkAndTranslate_accepted.
  destruct (batch_result_spec (batch msg) errs out (records_headers _) Hres)
    as (-> & _ & _).
  apply Forall_forall. intros h (r & -> & Hr)%list_elem_of_fmap.
  apply list_elem_of_filter in Hr as [_ Hr].
  pose proof (batch_headers_no_newline msg) as Hall.
  rewrite Forall_forall in Hall. by apply Hall.
Qed.

(** The reply with an error block, cut at its first newline. *)
Lemma split_reply (errs out : list str) :
  errs <> [] -> Forall (fun h => "010" ∉ h) errs ->
  output_manager errs out
  = (s_ "%%%" ++ Py.join (s_ "%%%") errs) ++ "010" :: Py.join ["010"] out
  /\ Py.split_max "010" 1 (output_manager errs out)
     = [s_ "%%%" ++ Py.join (s_ "%%%") errs; Py.join ["010"] out].
Proof.
  intros Hne Hall.
  assert (output_manager errs out
          = (s_ "%%%" ++ Py.join (s_ "%%%") errs) ++ "010" :: Py.join ["010"] out)
    as E.
  { unfold output_manager. destruct errs as [|h errs]; [done|].
    cbn [length Nat.ltb Nat.leb]. by rewrite app_nil_l, <- !(assoc_L (++)). }
  split; [done|]. rewrite E. unfold Py.split_max.
  rewrite split_max_from_sep; [done|].
  rewrite not_elem_of_app. split.
  - apply (bool_decide_eq_true_1 _). vm_compute. reflexivity.
  - apply join_no_char; [|done].
    apply (bool_decide_eq_true_1 _). vm_compute. reflexivity.
Qed.

(** A reply without error block starts with the marker of its first record. *)
Lemma reply_without_errors (msg : str) (out : list str) :
  checkAndTranslate msg = Returns (Accepted [] out) ->
  output_manager [] out = Py.join ["010"] out
  /\ Py.startswith (s_ "%%%") (Py.join ["010"] out) = false
  /\ Py.startswith [">"] (Py.join ["010"] out)
     || Py.startswith ["<"] (Py.join ["010"] out) = true.
Proof.
  intros Hacc. split; [done|].
  pose proof (sentinel_iff_errors msg [] out Hacc) as Hsent.
  split.
  { change (output_manager [] out) with (Py.join ["010"] out) in Hsent.
    destruct (Py.startswith _ _); [|done]. simpl in Hsent.
    assert (1 <= 0) by (by apply Hsent). lia. }
  pose proof Hacc as [Hrej Hres]%checkAndTranslate_accepted.
  destruct (batch_result_spec (batch msg) [] out (records_headers _) Hres)
    as (Herrs & Hflip & Hlen).
  pose proof (valid_invalid_length (batch msg)) as Hcount.
  rewrite <- (length_map fst), <- Herrs in Hcount. simpl in Hcount.
  assert (batch msg <> []) as Hbatch.
  { unfold rejects in Hrej. apply orb_false_iff in Hrej as [_ Hhead].
    apply negb_false_iff in Hhead. unfold batch.
    destruct (nonempty_lines msg) as [|l0 lines]; [done|].
    simpl in Hhead. by rewrite records_cons, Hhead. }
  apply Forall2_length in Hflip as Hl.
  destruct out as [|h [|b rest]].
  - simpl in Hl. rewrite Hl in Hcount. by destruct (batch msg).
  - simpl in Hlen. lia.
  - destruct (join_cons ["010"] h (b :: rest)) as [tl ->].
    cbn [transformed] in Hflip. apply Forall2_cons_inv_r in Hflip
      as (r & rs & (m & m' & label & _ & Ht & Hm & Hlt & Hgt) & _ & _).
    cbn [fst] in Ht. subst h.
    assert (m' = "<" \/ m' = ">") as [-> | ->] by (destruct Hm; tauto); done.
Qed.

Lemma split_str_from_free (cur p rest : str) :
  "%" ∉ p ->
  Py.split_str_from (s_ "%%%") 0 cur (p ++ rest)
  = Py.split_str_from (s_ "%%%") 0 (cur ++ p) rest.
Proof.
  revert cur. induction p as [|c p IH]; intros cur Hp.
  - by rewrite app_nil_r.
  - apply not_elem_of_cons in Hp as [Hne Hp].
    rewrite <- app_comm_cons. cbn [Py.split_str_from].
    assert (Py.startswith (s_ "%%%") (c :: p ++ rest) = false) as ->.
    { unfold s_. cbn [list_ascii_of_string Py.startswith].
      destruct (Ascii.eqb_spec "%" c); [congruence | done]. }
    rewrite IH by done. by rewrite <- (assoc_L (++)).
Qed.

Lemma split_str_from_sep (cur rest : str) :
  Py.split_str_from (s_ "%%%") 0 cur (s_ "%%%" ++ rest)
  = cur :: Py.split_str_from (s_ "%%%") 0 [] rest.
Proof. done. Qed.

Lemma split_str_join (cur h : str) (l : list str) :
  Forall (fun x => "%" ∉ x) (h :: l) ->
  Py.split_str_from (s_ "%%%") 0 cur (Py.join (s_ "%%%") (h :: l))
  = (cur ++ h) :: l.
Proof.
  revert cur h. induction l as [|y l IH]; intros cur h [Hh Hl]%Forall_cons.
  - cbn [Py.join]. rewrite <- (app_nil_r h) at 1.
    by rewrite split_str_from_free.
  - change (Py.join (s_ "%%%") (h :: y :: l))
      with (h ++ s_ "%%%" ++ Py.join (s_ "%%%") (y :: l)).
    rewrite split_str_from_free, split_str_from_sep by done.
    by rewrite IH.
Qed.

(** The client finds the error headers of the reply again when none of them
    holds a [%]. *)
Lemma error_headers_of_block (errs : list str) :
  errs <> [] -> Forall (fun h => h <> [] /\ ("%" ∉ h)) errs ->
  error_headers_of (s_ "%%%" ++ Py.join (s_ "%%%") errs) = errs.
Proof.
  intros Hne Hall. unfold error_headers_of, Py.split_str.
  destruct errs as [|h errs]; [done|].
  rewrite split_str_from_sep, split_str_join
    by (eapply Forall_impl; [done | by intros ? [_ ?]]).
  rewrite filter_cons_False by (intros H; by apply H).
  rewrite app_nil_l. clear Hne.
  induction Hall as [|x l [Hx _] _ IH]; [done|].
  by rewrite filter_cons_True, IH.
Qed.

Lemma markers_app (a b : str) : markers (a ++ b) = markers a + markers b.
Proof. unfold markers. rewrite !count_app. lia. Qed.

Lemma markers_join (sep : str) (l : list str) :
  markers sep = 0 -> markers (Py.join sep l) = markers_in l.
Proof.
  intros Hsep. unfold markers_in. induction l as [|x l IH]; [done|].
  destruct l as [|y l]; [simpl; lia|].
  change (Py.join sep (x :: y :: l)) with (x ++ sep ++ Py.join sep (y :: l)).
  rewrite !markers_app, IH, Hsep. simpl. lia.
Qed.

Lemma markers_zero (s : str) : markers s = 0 <-> ("<" ∉ s) /\ (">" ∉ s).
Proof.
  unfold markers. rewrite <- !count_elem_of. lia.
Qed.

Lemma markers_perm (a b : str) : a ≡ₚ b -> markers a = markers b.
Proof. intros Hp. unfold markers. by rewrite !(count_perm _ _ _ Hp). Qed.

(** A body that passes validation holds no marker. *)
Lemma validate_input_markers (body : str) :
  validate_input body = true -> markers body = 0.
Proof.
  intros [_ Hchars]%validate_input_chars. apply markers_zero.
  split; intros Hin; by destruct (Hchars _ Hin) as [?|?].
Qed.

(** The row [BWTtoDNA] returns is made of characters of its input. *)
Lemma BWTtoDNA_chars (word res : str) :
  BWTtoDNA word = Returns res -> res ⊆ word.
Proof.
  destruct word as [|c0 word0]; [done|]. set (word := c0 :: word0).
  assert (word <> []) as Hne by done.
  pose proof (loop_fuel_enough (length word) word Hne) as Hloop.
  unfold BWTtoDNA, BWTtoDNA_fuel. rewrite Hloop by lia. run_bind.
  set (rows := Nat.iter _ _ _).
  assert (Forall (fun r => r ⊆ word) rows) as Hr.
  { apply iter_loop_body_Forall.
    - intros a b Ha Hb c [Hc|Hc]%elem_of_app; auto.
    - apply Forall_fmap, Forall_forall. intros c Hc a Ha.
      apply list_elem_of_singleton in Ha. by subst.
    - rewrite np_sort_perm. apply Forall_fmap, Forall_forall.
      intros c Hc a Ha. apply list_elem_of_singleton in Ha. by subst. }
  destruct (filter _ rows) as [|r rest] eqn:E; [done|]. intros [= <-].
  assert (r ∈ filter (fun perm => ends_with_dollar perm = true) rows) as Hin
    by (rewrite E; left).
  apply list_elem_of_filter in Hin as [_ Hin].
  rewrite Forall_forall in Hr. auto.
Qed.

Lemma plain_label_header (h : str) :
  is_header h = true -> plain_label h -> markers h = 1 /\ ("%" ∉ h) /\ h <> [].
Proof.
  unfold is_header, plain_label.
  intros [[l ->]%startswith_marker|[l ->]%startswith_marker]%orb_true_iff Hl;
    cbn [drop] in Hl; rewrite Forall_forall in Hl.
  all: assert (markers l = 0) as Hm
         by (apply markers_zero; split; intros Hin; apply Hl in Hin; tauto).
  all: split; [|split; [|done]].
  all: try (change (markers (?m :: l)) with (markers ([m] ++ l));
            rewrite markers_app, Hm; by vm_compute).
  all: intros [?|Hin]%elem_of_cons; [done | apply Hl in Hin; tauto].
Qed.

(** With plain labels every error header and every transformed record holds
    exactly one marker. *)
Lemma batch_result_markers (rs : list (str * str)) :
  forall e o,
    Forall (fun r => is_header r.1 = true) rs ->
    Forall (fun r => plain_label r.1) rs ->
    batch_result rs = Returns (e, o) ->
    markers_in e = length e
    /\ markers_in o = length (transformed o)
    /\ Forall (fun h => h <> [] /\ ("%" ∉ h)) e.
Proof.
  unfold markers_in.
  induction rs as [|[h body] rs IH]; intros e o Hh Hp Hres.
  - injection Hres as <- <-. by repeat constructor.
  - apply Forall_cons in Hh as [Hh Hhs]. apply Forall_cons in Hp as [Hp Hps].
    cbn [batch_result fst snd] in *.
    destruct (record_result h body) as [[e1 o1]| |] eqn:Hr; [|done..].
    cbn [mbind outcome_bind] in Hres.
    destruct (batch_result rs) as [[e2 o2]| |] eqn:Hrs; [|done..].
    injection Hres as <- <-.
    destruct (IH e2 o2 Hhs Hps eq_refl) as (He & Ho & Hfree).
    destruct (plain_label_header h Hh Hp) as (Hm & Hpct & Hne).
    destruct (validate_input body) eqn:Hv.
    + destruct (record_result_body h body e1 o1 Hv Hh Hr)
        as (hd & res & -> & -> & Hgt & Hlt).
      destruct (record_result_cases h body _ _ Hh Hr)
        as [(Hv' & _)|(_ & _ & m & label & res' & -> & Hmk & [= -> ->])];
        [congruence|].
      cbn [app map sum_list transformed length].
      split; [done|]. split; [|done]. rewrite Ho.
      assert (markers (flip_marker m :: " " :: label) = 1) as ->.
      { change (markers (m :: label)) with (markers ([m] ++ label)) in Hm.
        change (flip_marker m :: " " :: label)
          with ([flip_marker m; " "] ++ label).
        rewrite markers_app in *.
        destruct Hmk as [-> | ->].
        - change (markers [">"]) with 1 in Hm.
          change (markers [flip_marker ">"; " "]) with 1. lia.
        - change (markers ["<"]) with 1 in Hm.
          change (markers [flip_marker "<"; " "]) with 1. lia. }
      assert (markers res' = 0) as ->; [|unfold id; lia].
      unfold is_header in Hh.
      destruct (Py.startswith [">"] (m :: label)) eqn:E.
      * rewrite (Hgt eq_refl), (markers_perm _ _ (DNAtoBWT_perm _)).
        rewrite markers_app, (validate_input_markers body Hv). by vm_compute.
      * cbn [orb] in Hh. apply markers_zero.
        pose proof (BWTtoDNA_chars _ _ (Hlt Hh)) as Hsub.
        apply validate_input_markers, markers_zero in Hv as [? ?].
        split; intros Hin; apply Hsub in Hin; done.
    + destruct (record_result_cases h body e1 o1 Hh Hr)
        as [(_ & -> & ->)|(Hv' & _)]; [|congruence].
      cbn [app map sum_list length]. rewrite He, Hm.
      split; [done|]. split; [done|]. by constructor.
Qed.

Lemma count_markers_markers (s : str) : count_markers s = Z.of_nat (markers s).
Proof. unfold count_markers, markers. lia. Qed.

(** What the client counts in a reply of the server whose labels are plain. *)
Lemma reply_counts (msg : str) (errs out : list str) :
  checkAndTranslate msg = Returns (Accepted errs out) ->
  Forall (fun r => plain_label r.1) (batch msg) ->
  count_markers (output_manager errs out) = Z.of_nat (header_count msg)
  /\ header_count msg = length errs + length (transformed out)
  /\ (errs <> [] ->
      error_headers_of (s_ "%%%" ++ Py.join (s_ "%%%") errs) = errs).
Proof.
  intros Hacc Hplain.
  pose proof Hacc as [_ Hres]%checkAndTranslate_accepted.
  destruct (batch_result_markers _ _ _ (records_headers _) Hplain Hres)
    as (He & Ho & Hfree).
  destruct (batch_result_spec (batch msg) _ _ (records_headers _) Hres)
    as (Herrs & Hflip%Forall2_length & _).
  pose proof (valid_invalid_length (batch msg)) as Hcount.
  assert (length errs
          = length (filter (fun r => invalid_record r = true) (batch msg)))
    as Hl by (rewrite Herrs; apply length_map).
  assert (length (filter (fun r => valid_record r = true) (batch msg))
          = length (transformed out)) as Hv by exact Hflip.
  rewrite batch_length, <- Hl, Hv in Hcount. clear Herrs.
  split; [|split; [lia | intros Hne; by apply error_headers_of_block]].
  rewrite count_markers_markers. f_equal. rewrite <- Hcount.
  destruct errs as [|h errs].
  - change (output_manager [] out) with (Py.join ["010"] out).
    rewrite markers_join by done. simpl. lia.
  - destruct (split_reply (h :: errs) out) as [-> _];
      [done | by eapply accepted_errs_no_newline |].
    change ("010" :: Py.join ["010"] out) with (["010"] ++ Py.join ["010"] out).
    rewrite !markers_app, !markers_join by done.
    change (markers (s_ "%%%")) with 0. change (markers ["010"]) with 0. lia.
Qed.

(** X12: on the reply to an accepted message whose labels hold none of [<],
    [>] and [%], the printer of level 1 writes the lines of the transformed
    records to [outfile] and reports the right numbers: with an error block,
    the number of transformed records out of the number of headers of the
    message; without one, the number of headers. *)
Theorem verbose1_accepted (msg outfile : str) (errs out : list str) :
  checkAndTranslate msg = Returns (Accepted errs out) ->
  Forall (fun r => plain_label r.1) (batch msg) ->
  verbose1 (output_manager errs out) outfile
  = Effects (Some (Py.join ["010"] out))
      (Some
         (if decide (errs = []) then
            outfile ++ s_ " correctly created with a total of "
            ++ Py.str_of_int (Z.of_nat (header_count msg))
            ++ s_ " transformation."
          else
            outfile ++ s_ " created with "
            ++ Py.str_of_int (Z.of_nat (length (transformed out)))
            ++ s_ " out of " ++ Py.str_of_int (Z.of_nat (header_count msg))
            ++ s_ " total inputs."))
      Normal.
Proof.
  intros Hacc Hplain.
  destruct (reply_counts msg errs out Hacc Hplain) as (Hc & HN & Hheaders).
  unfold verbose1. rewrite Hc. destruct errs as [|h errs].
  - destruct (reply_without_errors msg out Hacc) as (-> & -> & ->). done.
  - pose proof (proj2 (sentinel_iff_errors msg _ out Hacc)) as ->;
      [|simpl; lia].
    destruct (split_reply (h :: errs) out) as [_ ->];
      [done | by eapply accepted_errs_no_newline |].
    cbn [lookup list_lookup default from_option id].
    rewrite Hheaders by done. rewrite decide_False by done.
    replace (Z.of_nat (header_count msg) - Z.of_nat (length (h :: errs)))%Z
      with (Z.of_nat (length (transformed out))) by lia.
    done.
Qed.

Lemma verbose1_accepted_witness :
  verbose1 (output_manager [s_ ">a"] [s_ "< b"; s_ "t$acg"]) (s_ "output.txt")
  = Effects (Some (Py.join ["010"] [s_ "< b"; s_ "t$acg"]))
      (Some
         (if decide ([s_ ">a"] = []) then
            s_ "output.txt" ++ s_ " correctly created with a total of "
            ++ Py.str_of_int (Z.of_nat (header_count (s_ ">a
AC1
>b
acgt")))
            ++ s_ " transformation."
          else
            s_ "output.txt" ++ s_ " created with "
            ++ Py.str_of_int
                 (Z.of_nat (length (transformed [s_ "< b"; s_ "t$acg"])))
            ++ s_ " out of " ++ Py.str_of_int (Z.of_nat (header_count (s_ ">a
AC1
>b
acgt")))
            ++ s_ " total inputs."))
      Normal.
Proof.
  apply (verbose1_accepted (s_ ">a
AC1
>b
acgt")).
  - vm_compute. reflexivity.
  - apply (bool_decide_eq_true_1 _). vm_compute. reflexivity.
Defined.

(** X13: on the reply to an accepted message whose labels hold none of [<],
    [>] and [%], the printer of level 2 writes the lines of the transformed
    records to [outfile], reports the same numbers as level 1 and, when there
    is an error block, lists the headers that were skipped, one per line; it
    does not raise. *)
Theorem verbose2_accepted (msg outfile : str) (errs out : list str) :
  checkAndTranslate msg = Returns (Accepted errs out) ->
  Forall (fun r => plain_label r.1) (batch msg) ->
  verbose2 (output_manager errs out) outfile
  = Effects (Some (Py.join ["010"] out))
      (Some
         (if decide (errs = []) then
            outfile ++ s_ " correctly created with a total of "
            ++ Py.str_of_int (Z.of_nat (header_count msg))
            ++ s_ " transformation."
          else
            outfile ++ s_ " created with "
            ++ Py.str_of_int (Z.of_nat (length (transformed out)))
            ++ s_ " out of " ++ Py.str_of_int (Z.of_nat (header_count msg))
            ++ s_ " total inputs." ++ ["010"]
            ++ s_ "Skipped " ++ Py.str_of_int (Z.of_nat (length errs))
            ++ s_ " inputs:" ++ ["010"] ++ Py.join ["010"] errs))
      Normal.
Proof.
  intros Hacc Hplain.
  destruct (reply_counts msg errs out Hacc Hplain) as (Hc & HN & Hheaders).
  unfold verbose2. rewrite Hc. destruct errs as [|h errs].
  - destruct (reply_without_errors msg out Hacc) as (-> & -> & ->). done.
  - pose proof (proj2 (sentinel_iff_errors msg _ out Hacc)) as ->;
      [|simpl; lia].
    destruct (split_reply (h :: errs) out) as [_ ->];
      [done | by eapply accepted_errs_no_newline |].
    cbn [lookup list_lookup default from_option id].
    rewrite Hheaders by done. rewrite decide_False by done.
    replace (Z.of_nat (header_count msg) - Z.of_nat (length (h :: errs)))%Z
      with (Z.of_nat (length (transformed out))) by lia.
    destruct errs as [|h' errs];
      cbn [length Nat.ltb Nat.leb lookup list_lookup];
      [cbn [Py.join]|]; by rewrite <- !(assoc_L (++)).
Qed.

Lemma verbose2_accepted_witness :
  verbose2 (output_manager [s_ ">a"] [s_ "< b"; s_ "t$acg"]) (s_ "output.txt")
  = Effects (Some (Py.join ["010"] [s_ "< b"; s_ "t$acg"]))
      (Some
         (if decide ([s_ ">a"] = []) then
            s_ "output.txt" ++ s_ " correctly created with a total of "
            ++ Py.str_of_int (Z.of_nat (header_count (s_ ">a
AC1
>b
acgt")))
            ++ s_ " transformation."
          else
            s_ "output.txt" ++ s_ " created with "
            ++ Py.str_of_int
                 (Z.of_nat (length (transformed [s_ "< b"; s_ "t$acg"])))
            ++ s_ " out of " ++ Py.str_of_int (Z.of_nat (header_count (s_ ">a
AC1
>b
acgt")))
            ++ s_ " total inputs." ++ ["010"]
            ++ s_ "Skipped " ++ Py.str_of_int (Z.of_nat (length [s_ ">a"]))
            ++ s_ " inputs:" ++ ["010"] ++ Py.join ["010"] [s_ ">a"]))
      Normal.
Proof.
  apply (verbose2_accepted (s_ ">a
AC1
>b
acgt")).
  - vm_compute. reflexivity.
  - apply (bool_decide_eq_true_1 _). vm_compute. reflexivity.
Defined.

(** X14: a text that starts with the sentinel [%%%] and holds no newline has
    no second part: each of the three printers opens [outfile], which is left
    empty, prints nothing and raises [IndexError]. *)
Theorem verbose_without_newline (msg outfile : str) :
  Py.startswith (s_ "%%%") msg = true ->
  "010" ∉ msg ->
  verbose0 msg outfile = Effects (Some []) None RaisedIndexError
  /\ verbose1 msg outfile = Effects (Some []) None RaisedIndexError
  /\ verbose2 msg outfile = Effects (Some []) None RaisedIndexError.
Proof.
  intros Hs Hn. unfold verbose0, verbose1, verbose2, Py.split_max.
  by rewrite Hs, split_max_from_no_sep.
Qed.

Lemma verbose_without_newline_witness :
  verbose0 (s_ "%%%>a") (s_ "output.txt") = Effects (Some []) None RaisedIndexError
  /\ verbose1 (s_ "%%%>a") (s_ "output.txt")
     = Effects (Some []) None RaisedIndexError
  /\ verbose2 (s_ "%%%>a") (s_ "output.txt")
     = Effects (Some []) None RaisedIndexError.
Proof.
  apply (verbose_without_newline (s_ "%%%>a") (s_ "output.txt")).
  - vm_compute. reflexivity.
  - apply (bool_decide_eq_true_1 _). vm_compute. reflexivity.
Defined.

(** X15: a reply whose error block is the bare sentinel names no header: the
    printer of level 2 writes the second part to [outfile] and then raises
    [IndexError] without printing, where the printer of level 1 ends
    normally. *)
Theorem verbose2_empty_error_block (success outfile : str) :
  verbose2 (s_ "%%%" ++ "010" :: success) outfile
  = Effects (Some success) None RaisedIndexError
  /\ ended (verbose1 (s_ "%%%" ++ "010" :: success) outfile) = Normal.
Proof.
  assert (Py.split_max "010" 1 (s_ "%%%" ++ "010" :: success)
          = [s_ "%%%"; success]) as Hsplit.
  { unfold Py.split_max. rewrite split_max_from_sep; [done|].
    apply (bool_decide_eq_true_1 _). vm_compute. reflexivity. }
  unfold verbose2, verbose1.
  change (Py.startswith (s_ "%%%") (s_ "%%%" ++ "010" :: success)) with true.
  cbn iota. by rewrite Hsplit.
Qed.

(** X16: a whole exchange at level 0.  The client sends the encoding of a
    text without [/0] that the server accepts, the reply holds no [/0], and
    both streams are cut into chunks in any way: the server sends the
    encoding of the assembled reply followed by [/0], and the client writes
    exactly the lines of the transformed records to [outfile]. *)
Theorem exchange_level0
    (content outfile : str) (errs out : list str)
    (chunks_in chunks_out : list str) :
  checkAndTranslate content = Returns (Accepted errs out) ->
  end_free content ->
  end_free (output_manager errs out) ->
  concat chunks_in = client_request content ->
  concat chunks_out = Py.encode (output_manager errs out) ++ end_ ->
  handle_client chunks_in
  = Some (Text (Returns (Py.encode (output_manager errs out) ++ end_)))
  /\ client_connect chunks_out 0 outfile
     = Some (Text (Effects (Some (Py.join ["010"] out)) None Normal)).
Proof.
  intros Hacc Hcontent Hreply Hin Hout. split.
  - unfold handle_client.
    rewrite (recv_message_stream chunks_in content Hcontent Hin). simpl.
    unfold handle_message. by rewrite Hacc.
  - unfold client_connect, client_connect_recv.
    rewrite (recv_message_stream chunks_out _ Hreply Hout). simpl.
    unfold client_connect_show. rewrite decide_True by done. do 2 f_equal.
    unfold verbose0. destruct errs as [|h errs].
    + destruct (reply_without_errors content out Hacc) as (-> & -> & ->). done.
    + pose proof (proj2 (sentinel_iff_errors content _ out Hacc)) as ->;
        [|simpl; lia].
      destruct (split_reply (h :: errs) out) as [_ ->];
        [done | by eapply accepted_errs_no_newline | done].
Qed.

Lemma exchange_level0_witness :
  handle_client [s_ ">a"; ["195"]; "169" :: s_ "
AC1"; s_ "
>b
acgt/"; s_ "0"]
  = Some (Text (Returns (Py.encode (output_manager [s_ ">a" ++ ["233"]]
                                      [s_ "< b"; s_ "t$acg"]) ++ end_)))
  /\ client_connect [s_ "%%%>a"; ["195"]; "169" :: s_ "
< "; s_ "b
t$acg/0"] 0 (s_ "output.txt")
     = Some (Text (Effects (Some (Py.join ["010"] [s_ "< b"; s_ "t$acg"]))
                     None Normal)).
Proof.
  apply (exchange_level0 (s_ ">a" ++ "233" :: s_ "
AC1
>b
acgt") (s_ "output.txt") [s_ ">a" ++ ["233"]] [s_ "< b"; s_ "t$acg"]).
  - vm_compute. reflexivity.
  - vm_compute. reflexivity.
  - vm_compute. reflexivity.
  - vm_compute. reflexivity.
  - vm_compute. reflexivity.
Defined.

End client.

(** * The lines of a message *)

Section lines.

Lemma split_from_app (sep : ascii) (cur a b : str) :
  Py.split_from sep cur (a ++ sep :: b)
  = Py.split_from sep cur a ++ Py.split_from sep [] b.
Proof.
  revert cur. induction a as [|c a IH]; intros cur; simpl.
  - by rewrite Ascii.eqb_refl.
  - destruct (Ascii.eqb c sep); [by rewrite IH | apply IH].
Qed.

(** The non-empty lines of two texts joined by a newline are those of the
    first followed by those of the second. *)
Lemma nonempty_lines_app (a b : str) :
  nonempty_lines (a ++ "010" :: b) = nonempty_lines a ++ nonempty_lines b.
Proof.
  unfold nonempty_lines, Py.split. by rewrite split_from_app, filter_app.
Qed.

Lemma checkAndTranslate_lines (m1 m2 : str) :
  nonempty_lines m1 = nonempty_lines m2 ->
  checkAndTranslate m1 = checkAndTranslate m2.
Proof. intros E. unfold checkAndTranslate. by rewrite E. Qed.

Lemma Forall_sublist_filter {A} (P Q : A -> Prop) `{!forall x, Decision (Q x)}
    (l : list A) :
  Forall P l -> Forall P (filter Q l).
Proof.
  rewrite !Forall_forall. intros Hl x [_ Hx]%list_elem_of_filter. by apply Hl.
Qed.

Lemma nonempty_lines_line (line : str) :
  "010" ∉ line -> nonempty_lines line = filter (fun l => l <> []) [line].
Proof.
  intros Hline. unfold nonempty_lines, Py.split.
  by rewrite split_from_no_sep by done.
Qed.

(** The non-empty lines of the text that joins lines by newlines. *)
Lemma nonempty_lines_join (lines : list str) :
  Forall (fun line => "010" ∉ line) lines ->
  nonempty_lines (Py.join ["010"] lines) = filter (fun l => l <> []) lines.
Proof.
  induction 1 as [|line lines Hline Hlines IH]; [done|].
  destruct lines as [|line' lines].
  - by apply nonempty_lines_line.
  - change (Py.join ["010"] (line :: line' :: lines))
      with (line ++ "010" :: Py.join ["010"] (line' :: lines)).
    rewrite nonempty_lines_app, IH, nonempty_lines_line by done.
    by rewrite <- filter_app.
Qed.

(** X17: the empty lines of a message, the lines of no character at all, do
    not change what [checkAndTranslate] returns: the text made of any lines
    gives what the text made of the non-empty ones of these lines gives.  So a
    newline at the start of the message, a newline after a newline and a
    newline at the end can be left out.  A line that holds a blank is not
    empty. *)
Theorem empty_lines_ignored (lines : list str) (a b : str) :
  Forall (fun line => "010" ∉ line) lines ->
  checkAndTranslate (Py.join ["010"] lines)
  = checkAndTranslate (Py.join ["010"] (filter (fun line => line <> []) lines))
  /\ checkAndTranslate ("010" :: b) = checkAndTranslate b
  /\ checkAndTranslate (a ++ "010" :: "010" :: b)
     = checkAndTranslate (a ++ "010" :: b)
  /\ checkAndTranslate (a ++ ["010"]) = checkAndTranslate a.
Proof.
  intros Hlines.
  split; [|split; [|split]]; apply checkAndTranslate_lines.
  - rewrite !nonempty_lines_join; [|by apply Forall_sublist_filter|done].
    by rewrite list_filter_filter_l.
  - apply (nonempty_lines_app [] b).
  - rewrite !nonempty_lines_app. by f_equal.
  - rewrite nonempty_lines_app. apply app_nil_r.
Qed.

Lemma empty_lines_ignored_witness :
  checkAndTranslate (Py.join ["010"] [[]; s_ ">a"; []; s_ "AC"; s_ " "; []])
  = checkAndTranslate
      (Py.join ["010"]
         (filter (fun line => line <> []) [[]; s_ ">a"; []; s_ "AC"; s_ " "; []]))
  /\ checkAndTranslate ("010" :: s_ ">b
GT") = checkAndTranslate (s_ ">b
GT")
  /\ checkAndTranslate (s_ ">a
AC" ++ "010" :: "010" :: s_ ">b
GT")
     = checkAndTranslate (s_ ">a
AC" ++ "010" :: s_ ">b
GT")
  /\ checkAndTranslate (s_ ">a
AC" ++ ["010"]) = checkAndTranslate (s_ ">a
AC").
Proof.
  apply (empty_lines_ignored [[]; s_ ">a"; []; s_ "AC"; s_ " "; []]
           (s_ ">a
AC") (s_ ">b
GT")).
  apply (bool_decide_eq_true_1 _). vm_compute. reflexivity.
Defined.

End lines.

(** * The printers never fail on a reply of the server *)

Section printers.

Lemma startswith_sentinel (a : ascii) (s : str) :
  Py.startswith (s_ "%%%") (a :: s) = true ->
  a = "%" /\ exists rest, s = "%" :: "%" :: rest.
Proof.
  destruct s as [|b [|c rest]]; unfold s_;
    cbn [list_ascii_of_string Py.startswith]; rewrite ?andb_false_r; try done.
  rewrite andb_true_r.
  intros [<-%Ascii.eqb_eq [<-%Ascii.eqb_eq <-%Ascii.eqb_eq]%andb_true_iff]%andb_true_iff.
  eauto.
Qed.

(** A character other than [%] is in one of the pieces of the split. *)
Lemma split_str_keeps (c : ascii) (s : str) :
  c <> "%" ->
  forall (skip : nat) (cur : str),
    Forall (fun a => a = "%") (take skip s) ->
    c ∈ cur ++ drop skip s ->
    Exists (fun piece => c ∈ piece) (Py.split_str_from (s_ "%%%") skip cur s).
Proof.
  intros Hc. induction s as [|a s IH]; intros skip cur Hskip Hin.
  - rewrite drop_nil, app_nil_r in Hin. by constructor.
  - cbn [Py.split_str_from]. destruct skip as [|k].
    + destruct (Py.startswith (s_ "%%%") (a :: s)) eqn:E.
      * apply startswith_sentinel in E as (-> & rest & ->).
        change (length (s_ "%%%") - 1) with 2.
        apply elem_of_app in Hin as [Hin|Hin]; [by apply Exists_cons_hd|].
        apply Exists_cons_tl, IH; [by repeat constructor|].
        cbn [drop app] in *.
        apply elem_of_cons in Hin as [?|Hin]; [done|].
        apply elem_of_cons in Hin as [?|Hin]; [done|].
        by apply elem_of_cons in Hin as [?|Hin].
      * apply IH; [constructor|]. cbn [drop] in *.
        by rewrite <- (assoc_L (++)).
    + cbn [take drop] in *. apply Forall_cons in Hskip as [_ Hskip].
      by apply IH.
Qed.

Lemma error_headers_of_nonempty (block : str) (c : ascii) :
  c ∈ block -> c <> "%" -> error_headers_of block <> [].
Proof.
  intros Hin Hc. unfold error_headers_of, Py.split_str.
  pose proof (split_str_keeps c block Hc 0 [] (Forall_nil_2 _) Hin) as Hex.
  apply Exists_exists in Hex as (piece & Hpiece & Hcp).
  intros E.
  assert (piece ∈ filter (fun line : str => line <> [])
            (Py.split_str_from (s_ "%%%") 0 [] block)) as Hf.
  { apply list_elem_of_filter. split; [|done]. intros ->.
    by apply elem_of_nil in Hcp. }
  rewrite E in Hf. by apply elem_of_nil in Hf.
Qed.

(** The first error header of an accepted message starts with a marker. *)
Lemma accepted_errs_marker (msg : str) (h : str) (errs out : list str) :
  checkAndTranslate msg = Returns (Accepted (h :: errs) out) ->
  exists m label, h = m :: label /\ m <> "%".
Proof.
  intros [_ Hres]%checkAndTranslate_accepted.
  destruct (batch_result_spec (batch msg) _ _ (records_headers _) Hres)
    as (Herrs & _ & _).
  assert (h ∈ map fst (filter (fun r => invalid_record r = true) (batch msg)))
    as Hin by (rewrite <- Herrs; left).
  apply list_elem_of_fmap in Hin as (r & -> & Hr).
  apply list_elem_of_filter in Hr as [_ Hr].
  pose proof (records_headers (nonempty_lines msg)) as Hall.
  rewrite Forall_forall in Hall. apply Hall in Hr. unfold is_header in Hr.
  apply orb_true_iff in Hr as [[l ->]%startswith_marker|[l ->]%startswith_marker];
    eexists _, _; by split.
Qed.

(** X18: on whatever the server answers, the three printers end normally.
    After an accepted message each of them writes the lines of the
    transformed records to [outfile]; after a rejected one each prints the
    error text and leaves [outfile] alone. *)
Theorem printers_on_server_reply (msg outfile : str) :
  match checkAndTranslate msg with
  | Returns (Accepted errs out) =>
      let reply := output_manager errs out in
      verbose0 reply outfile = Effects (Some (Py.join ["010"] out)) None Normal
      /\ written (verbose1 reply outfile) = Some (Py.join ["010"] out)
      /\ ended (verbose1 reply outfile) = Normal
      /\ written (verbose2 reply outfile) = Some (Py.join ["010"] out)
      /\ ended (verbose2 reply outfile) = Normal
  | Returns Rejected =>
      verbose0 input_error outfile = Effects None (Some input_error) Normal
      /\ verbose1 input_error outfile = Effects None (Some input_error) Normal
      /\ verbose2 input_error outfile = Effects None (Some input_error) Normal
  | _ => True
  end.
Proof.
  destruct (checkAndTranslate msg) as [[|errs out]| |] eqn:Hacc; [done| |done..].
  cbn zeta. unfold verbose0, verbose1, verbose2. destruct errs as [|h errs].
  - by destruct (reply_without_errors msg out Hacc) as (-> & -> & ->).
  - pose proof (proj2 (sentinel_iff_errors msg _ out Hacc)) as ->;
      [|simpl; lia].
    destruct (split_reply (h :: errs) out) as [_ ->];
      [done | by eapply accepted_errs_no_newline |].
    cbn [lookup list_lookup default from_option id].
    do 3 (split; [done|]).
    destruct (accepted_errs_marker msg h errs out Hacc) as (m & label & -> & Hm).
    pose proof (error_headers_of_nonempty
                  (s_ "%%%" ++ Py.join (s_ "%%%") ((m :: label) :: errs)) m)
      as Hne.
    destruct (error_headers_of _) as [|x [|y t]].
    + exfalso. apply Hne; [|done|done].
      apply elem_of_app. right.
      destruct (join_cons (s_ "%%%") (m :: label) errs) as [tl ->]. by left.
    + done.
    + done.
Qed.

End printers.
